(** * Project9/1.cpp: the exception hierarchy and the owning pointer array

    A shallow embedding of [ProgramError] with its four derived classes and
    of the class template [PointerArray<T>], followed by the properties of
    the container that the specification states.

    Modelling decisions, all taken from the source:
    - an exception object is its dynamic class together with the string that
      [what()] returns; a [catch] clause matches along the base-class chain;
    - [T*] is [option positive], [nullptr] being [None]; the free store is a
      finite map from addresses to live [T] objects;
    - a [PointerArray<T>] object is identified by its address ([this]); the
      store maps every live container to the contents of its [pointers]
      member, so that [this != &other] is a comparison of identities;
    - a member function is a computation over the program state that returns
      normally, throws, or has undefined behaviour ([None]): deleting or
      dereferencing a pointer to no live object, unchecked vector indexing
      out of range, using a container that does not exist;
    - [size_t] is [N]; no arithmetic is done on indices, so nothing wraps;
    - allocation failure ([std::bad_alloc], and [std::length_error] from
      [reserve]) and console output are left out. *)

From Stdlib Require Import Ascii.
From stdpp Require Import gmap strings list fin_maps pretty.

(** ** Exceptions *)

Module Exn.

(** The classes that the program throws or catches. *)
Inductive cls : Set :=
  | std_exception
  | std_logic_error
  | std_invalid_argument
  | std_out_of_range
  | ProgramError
  | InsufficientPrivilegesError
  | ConversionError
  | ValueConversionError
  | InterfaceCastError.

#[global] Instance cls_eq_dec : EqDecision cls.
Proof. solve_decision. Defined.

(** The direct public base of each class: [class X : public B]. *)
Definition base (c : cls) : option cls :=
  match c with
  | std_exception => None
  | std_logic_error => Some std_exception
  | std_invalid_argument => Some std_logic_error
  | std_out_of_range => Some std_logic_error
  | ProgramError => Some std_exception
  | InsufficientPrivilegesError => Some ProgramError
  | ConversionError => Some ProgramError
  | ValueConversionError => Some ProgramError
  | InterfaceCastError => Some ProgramError
  end.

(** [derived_from n d b]: [b] is [d] or one of the first [n] bases of [d]. *)
Fixpoint derived_from (n : nat) (d b : cls) : bool :=
  bool_decide (d = b) ||
  match n with
  | O => false
  | S n' => match base d with
            | Some d' => derived_from n' d' b
            | None => false
            end
  end.

(** No chain of bases is longer than two steps. *)
Definition is_a (d b : cls) : bool := derived_from 2 d b.

(** An exception object: the class it was constructed as, and its message. *)
Record t : Set := Make { dyn : cls; message : string }.

Definition what (e : t) : string := message e.

(** [catch (const H& e)] takes the exception iff its class is [H] or is
    derived from [H]. *)
Definition catches (handler : cls) (e : t) : bool := is_a (dyn e) handler.

End Exn.

Abbreviation exn := Exn.t.

(** The constructors of the four derived classes pass a literal to
    [ProgramError(const std::string&)], which stores it in [message]. *)
Definition ProgramError (c : Exn.cls) (msg : string) : exn := Exn.Make c msg.

Definition InsufficientPrivilegesError : exn :=
  ProgramError Exn.InsufficientPrivilegesError
    "Недостаточно привилегий для выполнения операции".

Definition ConversionError : exn :=
  ProgramError Exn.ConversionError "Ошибка преобразования типов данных".

Definition ValueConversionError : exn :=
  ProgramError Exn.ValueConversionError "Невозможно преобразовать значение".

Definition InterfaceCastError : exn :=
  ProgramError Exn.InterfaceCastError "Невозможно привести к интерфейсу".

Definition invalid_argument (msg : string) : exn :=
  Exn.Make Exn.std_invalid_argument msg.

Definition out_of_range (msg : string) : exn :=
  Exn.Make Exn.std_out_of_range msg.

(** The four classes derived from [ProgramError], as thrown. *)
Definition domain_errors : list exn :=
  [InsufficientPrivilegesError; ConversionError; ValueConversionError;
   InterfaceCastError].

(** [std::to_string] on a [size_t]: the decimal digits. *)
Definition to_string (n : N) : string := pretty n.

(** The character [c] does not occur in [s]. *)
Fixpoint free_of (c : ascii) (s : string) : Prop :=
  match s with
  | EmptyString => True
  | String c' s' => c' <> c /\ free_of c s'
  end.

(** ** Program state and computations *)

Abbreviation addr := positive (only parsing).
Abbreviation ptr := (option positive) (only parsing).
Abbreviation nullptr := (@None positive) (only parsing).
Abbreviation obj := positive (only parsing).

(** How a call ends when its behaviour is defined. *)
Inductive result (A : Type) : Type :=
  | Normal (a : A)
  | Thrown (e : exn).
Arguments Normal {A} a.
Arguments Thrown {A} e.

Section PointerArray.

Context {T : Type}.

(** [heap]: the live [T] objects on the free store.
    [arrays]: the [pointers] member of every live [PointerArray<T>]. *)
Record state : Type := State {
  heap : gmap positive T;
  arrays : gmap positive (list (option positive))
}.

Definition M (A : Type) : Type := state -> option (result A * state).

Definition ret {A} (a : A) : M A := fun s => Some (Normal a, s).

Definition throw {A} (e : exn) : M A := fun s => Some (Thrown e, s).

Definition undefined {A} : M A := fun _ => None.

Definition bind {A B} (m : M A) (k : A -> M B) : M B := fun s =>
  match m s with
  | Some (Normal a, s') => k a s'
  | Some (Thrown e, s') => Some (Thrown e, s')
  | None => None
  end.

Notation "x <- m ;; k" := (bind m (fun x => k))
  (at level 100, m at next level, right associativity).
Notation "m ;;; k" := (bind m (fun _ => k))
  (at level 100, right associativity).

(** [try { body } catch (const H& e) { handler }] *)
Definition try_catch {A} (body : M A) (H : Exn.cls) (handler : exn -> M A)
  : M A := fun s =>
  match body s with
  | Some (Thrown e, s') =>
      if Exn.catches H e then handler e s' else Some (Thrown e, s')
  | r => r
  end.

(** *** The free store *)

(** [new T(args...)] once the constructor has produced [x]: the object is
    placed at an address that holds no live object. *)
Definition new_ (x : T) : M ptr := fun s =>
  let a := fresh (dom (heap s)) in
  Some (Normal (Some a), State (<[a := x]> (heap s)) (arrays s)).

(** [delete p]: nothing for [nullptr]; the object is destroyed when [p]
    points to a live one; undefined otherwise. *)
Definition delete_ (p : ptr) : M unit := fun s =>
  match p with
  | None => Some (Normal tt, s)
  | Some a =>
      match heap s !! a with
      | Some _ => Some (Normal tt, State (delete a (heap s)) (arrays s))
      | None => None
      end
  end.

(** [*p] yields a reference, modelled by the address of a live object. *)
Definition deref (p : ptr) : M addr := fun s =>
  match p with
  | Some a => match heap s !! a with
              | Some _ => Some (Normal a, s)
              | None => None
              end
  | None => None
  end.

(** *** The member [pointers] *)

Definition pointers (this : obj) : M (list ptr) := fun s =>
  match arrays s !! this with
  | Some v => Some (Normal v, s)
  | None => None
  end.

Definition set_pointers (this : obj) (v : list ptr) : M unit := fun s =>
  match arrays s !! this with
  | Some _ => Some (Normal tt, State (heap s) (<[this := v]> (arrays s)))
  | None => None
  end.

(** [pointers.push_back(p)] *)
Definition push_back (this : obj) (p : ptr) : M unit :=
  v <- pointers this ;; set_pointers this (v ++ [p]).

(** [pointers[index]] of [std::vector], which checks nothing. *)
Definition vector_at (v : list ptr) (index : N) : M ptr :=
  match v !! N.to_nat index with
  | Some p => ret p
  | None => undefined
  end.

(** [pointers.size()] *)
Definition vector_size (v : list ptr) : N := N.of_nat (length v).

(** [for (T* ptr : v) body(ptr)] *)
Fixpoint for_each (v : list ptr) (body : ptr -> M unit) : M unit :=
  match v with
  | [] => ret tt
  | p :: v' => body p ;;; for_each v' body
  end.

(** *** Member functions of [PointerArray<T>] *)

(** [void clear()] *)
Definition clear (this : obj) : M unit :=
  v <- pointers this ;;
  for_each v delete_ ;;;
  set_pointers this [].

(** [PointerArray() = default]: a new object at [this], with no elements. *)
Definition construct (this : obj) : M unit := fun s =>
  match arrays s !! this with
  | None => Some (Normal tt, State (heap s) (<[this := []]> (arrays s)))
  | Some _ => None
  end.

(** [PointerArray(size_t size)]: [reserve] changes the capacity only, and
    the class gives no access to the capacity. *)
Definition construct_reserve (this : obj) (size : N) : M unit :=
  construct this.

(** [~PointerArray()]: [clear()], then the object is gone. *)
Definition destroy (this : obj) : M unit :=
  clear this ;;;
  fun s => Some (Normal tt, State (heap s) (delete this (arrays s))).

(** [PointerArray(PointerArray&& other)]: the new vector takes the buffer
    of [other.pointers], which is left empty. *)
Definition move_construct (this other : obj) : M unit :=
  v <- pointers other ;;
  construct this ;;;
  set_pointers this v ;;;
  set_pointers other [].

(** [PointerArray& operator=(PointerArray&& other)].  The vector move
    assignment drops the (already empty) buffer of [this], takes the one of
    [other] and leaves [other.pointers] empty, as the [std::allocator]
    implementations do. *)
Definition move_assign (this other : obj) : M unit :=
  if decide (this <> other) then
    clear this ;;;
    v <- pointers other ;;
    set_pointers this v ;;;
    set_pointers other []
  else ret tt.

(** [void add(T* ptr)] *)
Definition add (this : obj) (p : ptr) : M unit :=
  match p with
  | None => throw (invalid_argument "Передан нулевой указатель")
  | Some _ => push_back this p
  end.

(** [template<typename... Args> void emplace(Args&&... args)].  The
    constructor of [T] is [ctor]; when it throws, the new-expression frees
    the storage and [push_back] is never reached. *)
Definition emplace {Args : Type} (ctor : Args -> result T)
    (this : obj) (args : Args) : M unit :=
  match ctor args with
  | Thrown e => throw e
  | Normal x => p <- new_ x ;; push_back this p
  end.

(** [size_t size() const] *)
Definition size (this : obj) : M N :=
  v <- pointers this ;; ret (vector_size v).

(** [bool empty() const] *)
Definition empty (this : obj) : M bool :=
  v <- pointers this ;; ret (bool_decide (v = [])).

Definition index_message (index size : N) : string :=
  "Индекс " +:+ to_string index +:+
  " выходит за границы массива размера " +:+ to_string size.

(** [T& operator[](size_t index)] *)
Definition subscript (this : obj) (index : N) : M addr :=
  v <- pointers this ;;
  if (vector_size v <=? index)%N then
    throw (out_of_range (index_message index (vector_size v)))
  else
    p <- vector_at v index ;; deref p.

(** [const T& operator[](size_t index) const] *)
Definition subscript_const (this : obj) (index : N) : M addr :=
  v <- pointers this ;;
  if (vector_size v <=? index)%N then
    throw (out_of_range (index_message index (vector_size v)))
  else
    p <- vector_at v index ;; deref p.

(** [T* get(size_t index) const] *)
Definition get (this : obj) (index : N) : M ptr :=
  v <- pointers this ;;
  if (vector_size v <=? index)%N then ret nullptr
  else vector_at v index.

End PointerArray.

Arguments state T : clear implicits.
Arguments M T A : clear implicits.

Notation "x <- m ;; k" := (bind m (fun x => k))
  (at level 100, m at next level, right associativity).
Notation "m ;;; k" := (bind m (fun _ => k))
  (at level 100, right associativity).

(** ** The ownership invariant and what is observed of a container *)

Section Invariant.

Context {T : Type}.
Implicit Types (s : state T) (c : positive) (v : list (option positive)).

(** No slot of any container holds [nullptr]. *)
Definition no_null s : Prop :=
  forall c v, arrays s !! c = Some v -> None ∉ v.

(** Every stored pointer points to a live object. *)
Definition all_live s : Prop :=
  forall c v a, arrays s !! c = Some v -> Some a ∈ v -> is_Some (heap s !! a).

(** No pointer is stored twice, in one container or in two. *)
Definition unique s : Prop :=
  forall c1 c2 v1 v2 (i j : nat) p,
    arrays s !! c1 = Some v1 -> arrays s !! c2 = Some v2 ->
    v1 !! i = Some p -> v2 !! j = Some p -> c1 = c2 /\ i = j.

(** Each container is the sole owner of live objects. *)
Record wf s : Prop := Wf {
  wf_no_null : no_null s;
  wf_all_live : all_live s;
  wf_unique : unique s
}.

(** A computation that takes states satisfying the invariant to states
    satisfying it, whether it returns or throws. *)
Definition keeps_wf {A} (m : M T A) : Prop :=
  forall s r s', wf s -> m s = Some (r, s') -> wf s'.

(** The object seen through slot [i] of container [c], if any. *)
Definition element s c (i : nat) : option T :=
  match arrays s !! c with
  | Some v => match v !! i with
              | Some (Some a) => heap s !! a
              | _ => None
              end
  | None => None
  end.

(** The free store once every object that [v] points to is destroyed. *)
Definition release v (h : gmap positive T) : gmap positive T :=
  foldl (fun h p => match p with Some a => delete a h | None => h end) h v.

(** [s'] is [s] with the pointer [p] appended to container [c], whose
    contents in [s] were [v]: as seen through [size], [get] and the objects
    behind the slots. *)
Definition appended s s' c v p : Prop :=
  size c s' = Some (Normal (vector_size v + 1)%N, s') /\
  get c (vector_size v + 1 - 1)%N s' = Some (Normal p, s') /\
  (forall (index : N) q, (index < vector_size v)%N ->
     get c index s = Some (Normal q, s) ->
     get c index s' = Some (Normal q, s')) /\
  (forall i y, element s c i = Some y -> element s' c i = Some y) /\
  (forall c', c' <> c -> arrays s' !! c' = arrays s !! c').

(** The state in which no object and no container exists. *)
Definition init : state T := State ∅ ∅.

End Invariant.

(** ** The element types of [main] *)

(** [class TestClass], without its console output. *)
Record TestClass : Set := { name : string; value : Z }.

(** [TestClass(const std::string& n, int v) : name(n), value(v)] *)
Definition TestClass_ctor (args : string * Z) : result TestClass :=
  Normal {| name := args.1; value := args.2 |}.

(** [void setValue(int newValue)] *)
Definition setValue (newValue : Z) (t : TestClass) : result TestClass :=
  if (newValue <? 0)%Z then
    Thrown (invalid_argument "Значение не может быть отрицательным")
  else Normal {| name := name t; value := newValue |}.

Definition getValue (t : TestClass) : Z := value t.

(** An element type whose constructor body is [setValue(v)], and so throws
    on a negative value: an instance of [T] for which [new T(args...)]
    fails. *)
Definition Validated_ctor (args : string * Z) : result TestClass :=
  setValue args.2 {| name := args.1; value := 0 |}.

(** [PointerArray<TestClass> testArray] of [main], placed at 1, after the
    three calls of [emplace]. *)
Definition testArray : positive := 1%positive.

Definition main_testArray : M TestClass unit :=
  construct testArray ;;;
  emplace TestClass_ctor testArray ("Объект 1", 10%Z) ;;;
  emplace TestClass_ctor testArray ("Объект 2", 20%Z) ;;;
  emplace TestClass_ctor testArray ("Объект 3", 30%Z).

Definition after_main_testArray : state TestClass :=
  State
    (<[1%positive := {| name := "Объект 1"; value := 10 |}]>
      (<[2%positive := {| name := "Объект 2"; value := 20 |}]>
        (<[3%positive := {| name := "Объект 3"; value := 30 |}]> ∅)))
    (<[testArray := [Some 1%positive; Some 2%positive; Some 3%positive]]> ∅).

(** A second container next to [testArray], holding one object. *)
Definition other : positive := 2%positive.

Definition main_two_arrays : M TestClass unit :=
  main_testArray ;;;
  construct other ;;;
  emplace TestClass_ctor other ("Объект 4", 40%Z).

Definition two_arrays : state TestClass :=
  State
    (<[4%positive := {| name := "Объект 4"; value := 40 |}]>
      (heap after_main_testArray))
    (<[other := [Some 4%positive]]> (arrays after_main_testArray)).

(** ** The rest of the program *)

(** [std::to_string] on an [int]: the decimal digits, after a minus sign
    for a negative number. *)
Definition to_string_int (n : Z) : string := pretty n.

Definition processValue_message (value : Z) : string :=
  "Значение " +:+ to_string_int value +:+
  " должно быть в диапазоне [0, 100]".

(** [void processValue(int value)], without its console output. *)
Definition processValue (value : Z) : result unit :=
  if ((value <? 0) || (value >? 100))%Z then
    Thrown (invalid_argument (processValue_message value))
  else Normal tt.

Section Callers.

Context {T : Type}.

(** [r.f(...)] for a reference [r] obtained from a container and a member
    function [f] that modifies the object or throws and leaves it as it
    was. *)
Definition invoke (r : positive) (f : T -> result T) : M T unit := fun s =>
  match heap s !! r with
  | Some x =>
      match f x with
      | Normal x' => Some (Normal tt, State (<[r := x']> (heap s)) (arrays s))
      | Thrown e => Some (Thrown e, s)
      end
  | None => None
  end.

(** [r.f()] for a [const] member function [f]. *)
Definition invoke_const {A} (r : positive) (f : T -> A) : M T A := fun s =>
  match heap s !! r with
  | Some x => Some (Normal (f x), s)
  | None => None
  end.

(** [for (args : l) array.emplace(args)] *)
Fixpoint emplace_all {Args} (ctor : Args -> result T) (this : positive)
    (l : list Args) : M T unit :=
  match l with
  | [] => ret tt
  | args :: l' => emplace ctor this args ;;; emplace_all ctor this l'
  end.

(** A call of a member function of [PointerArray<T>] by a program that
    creates its elements with [emplace] only. *)
Inductive call (Args : Type) : Type :=
  | Construct (this : positive)
  | ConstructReserve (this : positive) (size : N)
  | Destroy (this : positive)
  | MoveConstruct (this other : positive)
  | MoveAssign (this other : positive)
  | Emplace (this : positive) (args : Args)
  | Clear (this : positive)
  | Size (this : positive)
  | Empty (this : positive)
  | Subscript (this : positive) (index : N)
  | SubscriptConst (this : positive) (index : N)
  | Get (this : positive) (index : N).

(** The call, its result dropped. *)
Definition exec {Args} (ctor : Args -> result T) (k : call Args) : M T unit :=
  match k with
  | Construct _ this => construct this
  | ConstructReserve _ this n => construct_reserve this n
  | Destroy _ this => destroy this
  | MoveConstruct _ this other => move_construct this other
  | MoveAssign _ this other => move_assign this other
  | Emplace _ this args => emplace ctor this args
  | Clear _ this => clear this
  | Size _ this => size this ;;; ret tt
  | Empty _ this => empty this ;;; ret tt
  | Subscript _ this index => subscript this index ;;; ret tt
  | SubscriptConst _ this index => subscript_const this index ;;; ret tt
  | Get _ this index => get this index ;;; ret tt
  end.

(** Calls in sequence; an exception ends the sequence. *)
Fixpoint run {Args} (ctor : Args -> result T) (ks : list (call Args))
  : M T unit :=
  match ks with
  | [] => ret tt
  | k :: ks' => exec ctor k ;;; run ctor ks'
  end.

(** Every live object is held by some container. *)
Definition no_leak (s : state T) : Prop :=
  forall a, is_Some (heap s !! a) ->
    exists c v, arrays s !! c = Some v /\ Some a ∈ v.

End Callers.

Arguments Construct {Args} this.
Arguments ConstructReserve {Args} this size.
Arguments Destroy {Args} this.
Arguments MoveConstruct {Args} this other.
Arguments MoveAssign {Args} this other.
Arguments Emplace {Args} this args.
Arguments Clear {Args} this.
Arguments Size {Args} this.
Arguments Empty {Args} this.
Arguments Subscript {Args} this index.
Arguments SubscriptConst {Args} this index.
Arguments Get {Args} this index.

(** [array[index].setValue(newValue)], as in [main]. *)
Definition setValue_at (this : positive) (index : N) (newValue : Z)
  : M TestClass unit :=
  r <- subscript this index ;; invoke r (setValue newValue).

(** [array[index].getValue()] on a [const] array. *)
Definition getValue_at (this : positive) (index : N) : M TestClass Z :=
  r <- subscript_const this index ;; invoke_const r getValue.

(** [std::string getName() const] *)
Definition getName (t : TestClass) : string := name t.

(** A life of [testArray] as in [main]: constructed, filled by three calls
    of [emplace], read, and destroyed at the end of its scope. *)
Definition main_calls : list (call (string * Z)) :=
  [Construct testArray;
   Emplace testArray ("Объект 1", 10%Z);
   Emplace testArray ("Объект 2", 20%Z);
   Emplace testArray ("Объект 3", 30%Z);
   Size testArray; Subscript testArray 0; Get testArray 10;
   Destroy testArray].

(** [after_main_testArray] once a caller has made an object of its own with
    [new TestClass("Объект 4", 40)]. *)
Definition with_new_object : state TestClass :=
  State
    (<[4%positive := {| name := "Объект 4"; value := 40 |}]>
      (heap after_main_testArray))
    (arrays after_main_testArray).

Example main_testArray_runs :
  main_testArray init = Some (Normal tt, after_main_testArray).
Proof. vm_compute. reflexivity. Qed.

Example main_two_arrays_runs :
  main_two_arrays init = Some (Normal tt, two_arrays).
Proof. vm_compute. reflexivity. Qed.

(** ** Properties of the exception hierarchy *)

Lemma is_a_refl c : Exn.is_a c c = true.
Proof. by destruct c. Qed.

Lemma ProgramError_is_exception c :
  Exn.is_a c Exn.ProgramError = true -> Exn.is_a c Exn.std_exception = true.
Proof. by destruct c. Qed.

(** ** The message of [operator[]] determines the index and the size *)

Lemma pretty_N_go_free_of_space (x : N) : forall s,
  free_of " "%char s -> free_of " "%char (pretty_N_go x s).
Proof.
  induction (N.lt_wf_0 x) as [x _ IH]. intros s Hs.
  destruct (decide (x = 0%N)) as [->|Hx].
  - by rewrite pretty_N_go_0.
  - rewrite pretty_N_go_step by lia. apply IH.
    + apply N.div_lt; lia.
    + split; [|done]. unfold pretty_N_char. by repeat case_match.
Qed.

Lemma to_string_free_of_space n : free_of " "%char (to_string n).
Proof.
  unfold to_string, pretty, pretty_N. case_decide.
  - by split.
  - by apply pretty_N_go_free_of_space.
Qed.

Lemma split_at_space d1 : forall d2 r1 r2,
  free_of " "%char d1 -> free_of " "%char d2 ->
  d1 +:+ String " "%char r1 = d2 +:+ String " "%char r2 -> d1 = d2 /\ r1 = r2.
Proof.
  induction d1 as [|c d1 IH]; intros [|c' d2] r1 r2 H1 H2 Heq; cbn in *.
  - by injection Heq as ->.
  - injection Heq as <- _. by destruct H2.
  - injection Heq as -> _. by destruct H1.
  - injection Heq as -> Heq. destruct H1 as [_ H1], H2 as [_ H2].
    by destruct (IH d2 r1 r2 H1 H2 Heq) as [-> ->].
Qed.

Lemma index_message_inj i n i' n' :
  index_message i n = index_message i' n' -> i = i' /\ n = n'.
Proof.
  unfold index_message. intros Heq.
  pose proof (to_string_free_of_space i) as Hi.
  pose proof (to_string_free_of_space i') as Hi'.
  assert (to_string i = to_string i' /\ to_string n = to_string n')
    as [Hidx Hsize].
  { revert Heq Hi Hi'.
    generalize (to_string i), (to_string i'), (to_string n), (to_string n').
    intros di di' dn dn' Heq Hi Hi'. cbn in Heq. simplify_eq.
    match goal with
    | H : _ +:+ _ = _ +:+ _ |- _ =>
        apply split_at_space in H as [-> Hrest]; [|done..]
    end.
    by simplify_eq. }
  split; by apply (inj pretty).
Qed.

(** ** The free store and the loop of [clear] *)

Section Proofs.

Context {T : Type}.
Implicit Types (s : state T) (c : positive) (v : list (option positive))
  (h : gmap positive T) (a : positive) (p : option positive).

Lemma release_cons p v h :
  release (p :: v) h =
  release v (match p with Some a => delete a h | None => h end).
Proof. reflexivity. Qed.

Lemma lookup_release v : forall h a,
  release v h !! a = if decide (Some a ∈ v) then None else h !! a.
Proof.
  induction v as [|p v IH]; intros h a.
  - rewrite decide_False; [done | by intros ?%elem_of_nil].
  - rewrite release_cons, IH.
    destruct (decide (Some a ∈ v)) as [Hin|Hnin].
    { rewrite decide_True; [done | by right]. }
    destruct (decide (p = Some a)) as [->|Hne].
    + rewrite decide_True by left. apply lookup_delete_eq.
    + rewrite decide_False.
      2: { intros [?|?]%elem_of_cons; [congruence | done]. }
      destruct p as [b|]; [|done].
      rewrite lookup_delete_ne; [done | congruence].
Qed.

Lemma release_nil h : release [] h = h.
Proof. reflexivity. Qed.

(** The loop [for (T* ptr : pointers) delete ptr] is defined, and destroys
    exactly the objects pointed to, when the pointers are distinct, not null
    and live. *)
Lemma for_each_delete v : forall s,
  NoDup v ->
  (forall p, p ∈ v -> exists a, p = Some a /\ is_Some (heap s !! a)) ->
  for_each v delete_ s = Some (Normal tt, State (release v (heap s)) (arrays s)).
Proof.
  induction v as [|p v IH]; intros s Hnd Hlive.
  - by destruct s.
  - apply NoDup_cons in Hnd as [Hp Hnd].
    destruct (Hlive p) as (a & -> & [x Hx]); [by left |].
    cbn [for_each]. unfold bind at 1. cbn [delete_]. rewrite Hx.
    rewrite IH; [done | done |].
    intros q Hq. destruct (Hlive q) as (b & -> & Hb); [by right |].
    exists b. split; [done |]. cbn.
    rewrite lookup_delete_ne; [done | congruence].
Qed.

Lemma wf_NoDup s c v : unique s -> arrays s !! c = Some v -> NoDup v.
Proof.
  intros Hu Hc. apply NoDup_alt. intros i j p Hi Hj.
  by destruct (Hu c c v v i j p Hc Hc Hi Hj).
Qed.

Lemma wf_slot s c v p :
  wf s -> arrays s !! c = Some v -> p ∈ v ->
  exists a, p = Some a /\ is_Some (heap s !! a).
Proof.
  intros [Hn Hl _] Hc Hp. destruct p as [a|].
  - exists a. split; [done |]. by eapply Hl.
  - by destruct (Hn c v Hc).
Qed.

(** What [clear] computes in a state that satisfies the invariant. *)
Lemma clear_eq s c v :
  wf s -> arrays s !! c = Some v ->
  clear c s =
  Some (Normal tt, State (release v (heap s)) (<[c := []]> (arrays s))).
Proof.
  intros Hwf Hc. unfold clear, bind, pointers. rewrite Hc.
  rewrite for_each_delete.
  - unfold set_pointers. cbn. by rewrite Hc.
  - eapply wf_NoDup; [apply Hwf | done].
  - intros p Hp. by eapply wf_slot.
Qed.

(** *** The invariant is kept *)

(** Replacing the contents of one container, and possibly changing the
    free store, keeps the invariant when the new contents are distinct live
    pointers that no other container holds, and the other containers keep
    their objects. *)
Lemma wf_insert s c w h' :
  unique s ->
  NoDup w ->
  (forall p, p ∈ w -> exists a, p = Some a /\ is_Some (h' !! a)) ->
  (forall c' v' p, c' <> c -> arrays s !! c' = Some v' -> p ∈ v' ->
     (p ∉ w) /\ (exists a, p = Some a /\ is_Some (h' !! a))) ->
  wf (State h' (<[c := w]> (arrays s))).
Proof.
  intros Hu Hnd Hw Hrest. split.
  - intros c0 v0 Hc0 Hin. cbn in Hc0.
    destruct (decide (c = c0)) as [->|Hne].
    + rewrite lookup_insert_eq in Hc0. injection Hc0 as <-.
      by destruct (Hw _ Hin) as (? & ? & _).
    + rewrite lookup_insert_ne in Hc0 by done.
      by destruct (Hrest c0 v0 None (not_eq_sym Hne) Hc0 Hin) as (_ & ? & ? & _).
  - intros c0 v0 a Hc0 Hin. cbn in *.
    destruct (decide (c = c0)) as [->|Hne].
    + rewrite lookup_insert_eq in Hc0. injection Hc0 as <-.
      destruct (Hw _ Hin) as (? & [= <-] & ?). done.
    + rewrite lookup_insert_ne in Hc0 by done.
      destruct (Hrest c0 v0 _ (not_eq_sym Hne) Hc0 Hin) as (_ & ? & [= <-] & ?).
      done.
  - intros c1 c2 v1 v2 i j p H1 H2 Hi Hj. cbn in *.
    destruct (decide (c1 = c)) as [->|Hne1]; destruct (decide (c2 = c)) as [->|Hne2].
    + rewrite lookup_insert_eq in H1, H2.
      injection H1 as <-. injection H2 as <-.
      split; [done |]. by eapply NoDup_lookup.
    + rewrite lookup_insert_eq in H1. injection H1 as <-.
      rewrite lookup_insert_ne in H2 by done.
      destruct (Hrest c2 v2 p Hne2 H2) as [Hnot _].
      { by eapply list_elem_of_lookup_2. }
      destruct Hnot. by eapply list_elem_of_lookup_2.
    + rewrite lookup_insert_eq in H2. injection H2 as <-.
      rewrite lookup_insert_ne in H1 by done.
      destruct (Hrest c1 v1 p Hne1 H1) as [Hnot _].
      { by eapply list_elem_of_lookup_2. }
      destruct Hnot. by eapply list_elem_of_lookup_2.
    + rewrite lookup_insert_ne in H1, H2 by done. by eapply Hu.
Qed.

(** Two containers of a state that satisfies the invariant share nothing. *)
Lemma wf_disjoint s c1 c2 v1 v2 p :
  unique s -> c1 <> c2 ->
  arrays s !! c1 = Some v1 -> arrays s !! c2 = Some v2 ->
  p ∈ v1 -> p ∉ v2.
Proof.
  intros Hu Hne H1 H2 [i Hi]%list_elem_of_lookup [j Hj]%list_elem_of_lookup.
  by destruct (Hu c1 c2 v1 v2 i j p H1 H2 Hi Hj).
Qed.

Lemma wf_init : wf (@init T).
Proof. split; intros ?; intros; cbn in *; by rewrite lookup_empty in *. Qed.

Lemma wf_construct s c r s' :
  wf s -> construct c s = Some (r, s') -> wf s'.
Proof.
  intros Hwf. unfold construct.
  destruct (arrays s !! c) eqn:Hc; [done |]. intros [= <- <-].
  apply wf_insert.
  - apply Hwf.
  - constructor.
  - by intros p ?%elem_of_nil.
  - intros c' v' p _ Hc' Hp. split; [by intros ?%elem_of_nil |].
    by eapply wf_slot.
Qed.

(** [add] keeps the invariant when the caller hands over a live object
    that no container owns yet. *)
Lemma wf_add s c a r s' :
  wf s -> is_Some (heap s !! a) ->
  (forall c' v', arrays s !! c' = Some v' -> Some a ∉ v') ->
  add c (Some a) s = Some (r, s') -> wf s'.
Proof.
  intros Hwf Ha Hfree. unfold add, push_back, bind, pointers, set_pointers.
  destruct (arrays s !! c) as [v|] eqn:Hc; [|done]. cbn. rewrite Hc.
  intros [= <- <-]. apply wf_insert.
  - apply Hwf.
  - apply NoDup_app. split_and!.
    + eapply wf_NoDup; [apply Hwf | done].
    + intros p Hp ->%list_elem_of_singleton. by eapply Hfree.
    + apply NoDup_singleton.
  - intros p [Hp| ->%list_elem_of_singleton]%elem_of_app.
    + by eapply wf_slot.
    + by exists a.
  - intros c' v' p Hne Hc' Hp. split; [|by eapply wf_slot].
    intros [Hp'| ->%list_elem_of_singleton]%elem_of_app.
    + by eapply (wf_disjoint s c' c v' v p); [apply Hwf | ..].
    + by eapply Hfree.
Qed.

Lemma wf_emplace {Args} (ctor : Args -> result T) s c args r s' :
  wf s -> emplace ctor c args s = Some (r, s') -> wf s'.
Proof.
  intros Hwf. unfold emplace. destruct (ctor args) as [x|e].
  2: { by intros [= <- <-]. }
  unfold push_back, bind, new_, pointers, set_pointers. cbn.
  destruct (arrays s !! c) as [v|] eqn:Hc; [|done]. cbn. rewrite Hc.
  intros [= <- <-].
  set (a := fresh (dom (heap s))).
  assert (heap s !! a = None) as Ha.
  { apply not_elem_of_dom. apply is_fresh. }
  assert (forall c' v', arrays s !! c' = Some v' -> Some a ∉ v') as Hfree.
  { intros c' v' Hc' Hin.
    destruct (wf_all_live s Hwf c' v' a Hc' Hin) as [? ?]. congruence. }
  assert (forall b, is_Some (heap s !! b) -> is_Some (<[a := x]> (heap s) !! b))
    as Hmono.
  { intros b Hb. destruct (decide (a = b)) as [->|].
    - rewrite lookup_insert_eq. by eexists.
    - by rewrite lookup_insert_ne. }
  apply wf_insert.
  - apply Hwf.
  - apply NoDup_app. split_and!.
    + eapply wf_NoDup; [apply Hwf | done].
    + intros p Hp ->%list_elem_of_singleton. by eapply Hfree.
    + apply NoDup_singleton.
  - intros p [Hp| ->%list_elem_of_singleton]%elem_of_app.
    + destruct (wf_slot s c v p Hwf Hc Hp) as (b & -> & Hb). eauto.
    + exists a. split; [done |]. rewrite lookup_insert_eq. by eexists.
  - intros c' v' p Hne Hc' Hp. split.
    + intros [Hp'| ->%list_elem_of_singleton]%elem_of_app.
      * by eapply (wf_disjoint s c' c v' v p); [apply Hwf | ..].
      * by eapply Hfree.
    + destruct (wf_slot s c' v' p Hwf Hc' Hp) as (b & -> & Hb). eauto.
Qed.

Lemma wf_clear s c r s' : wf s -> clear c s = Some (r, s') -> wf s'.
Proof.
  intros Hwf Hrun.
  destruct (arrays s !! c) as [v|] eqn:Hc.
  2: { unfold clear, bind, pointers in Hrun. by rewrite Hc in Hrun. }
  rewrite (clear_eq s c v Hwf Hc) in Hrun. injection Hrun as <- <-.
  apply wf_insert.
  - apply Hwf.
  - constructor.
  - by intros p ?%elem_of_nil.
  - intros c' v' p Hne Hc' Hp. split; [by intros ?%elem_of_nil |].
    destruct (wf_slot s c' v' p Hwf Hc' Hp) as (b & -> & Hb).
    exists b. split; [done |]. rewrite lookup_release.
    rewrite decide_False; [done |].
    by eapply (wf_disjoint s c' c v' v); [apply Hwf | ..].
Qed.

(** *** What the two moves compute *)

Lemma move_construct_eq s a b va :
  arrays s !! a = Some va -> arrays s !! b = None ->
  move_construct b a s =
  Some (Normal tt, State (heap s) (<[a := []]> (<[b := va]> (arrays s)))).
Proof.
  intros Ha Hb. assert (a <> b) as Hne by congruence.
  unfold move_construct, bind, pointers, construct, set_pointers.
  rewrite Ha, Hb. cbn. rewrite lookup_insert_eq. cbn.
  rewrite insert_insert_eq, lookup_insert_ne by done. by rewrite Ha.
Qed.

Lemma move_assign_eq s a b va vb :
  wf s -> a <> b -> arrays s !! a = Some va -> arrays s !! b = Some vb ->
  move_assign b a s =
  Some (Normal tt,
        State (release vb (heap s)) (<[a := []]> (<[b := va]> (arrays s)))).
Proof.
  intros Hwf Hne Ha Hb. unfold move_assign.
  rewrite decide_True by done. unfold bind at 1.
  rewrite (clear_eq s b vb Hwf Hb).
  unfold bind, pointers, set_pointers. cbn.
  rewrite lookup_insert_ne, Ha by done. cbn. rewrite lookup_insert_eq. cbn.
  rewrite insert_insert_eq, lookup_insert_ne by done. by rewrite Ha.
Qed.

Lemma wf_moved s a b va h' :
  wf s -> a <> b -> arrays s !! a = Some va ->
  (forall q, Some q ∈ va -> h' !! q = heap s !! q) ->
  (forall c' v' q, c' <> b -> arrays s !! c' = Some v' -> Some q ∈ v' ->
     h' !! q = heap s !! q) ->
  wf (State h' (<[a := []]> (<[b := va]> (arrays s)))).
Proof.
  intros Hwf Hne Ha Hva Hrest.
  rewrite insert_insert_ne by done.
  assert (unique (State (heap s) (<[a := []]> (arrays s)))) as Hu.
  { apply (wf_insert s a [] (heap s)).
    - apply Hwf.
    - constructor.
    - by intros p ?%elem_of_nil.
    - intros c' v' p _ Hc' Hp. split; [by intros ?%elem_of_nil |].
      by eapply wf_slot. }
  change (wf (State h' (<[b := va]>
            (arrays (State (heap s) (<[a := []]> (arrays s))))))).
  apply wf_insert.
  - done.
  - eapply wf_NoDup; [apply Hwf | done].
  - intros p Hp. destruct (wf_slot s a va p Hwf Ha Hp) as (q & -> & Hq).
    exists q. split; [done |]. by rewrite Hva.
  - intros c' v' p Hc'b Hc' Hp. cbn in Hc'.
    destruct (decide (c' = a)) as [->|Hc'a].
    { rewrite lookup_insert_eq in Hc'. injection Hc' as <-.
      by apply elem_of_nil in Hp. }
    rewrite lookup_insert_ne in Hc' by done. split.
    + by eapply (wf_disjoint s c' a v' va); [apply Hwf | ..].
    + destruct (wf_slot s c' v' p Hwf Hc' Hp) as (q & -> & Hq).
      exists q. split; [done |]. by rewrite (Hrest c' v' q).
Qed.

Lemma wf_move_construct s a b r s' :
  wf s -> move_construct b a s = Some (r, s') -> wf s'.
Proof.
  intros Hwf Hrun.
  destruct (arrays s !! a) as [va|] eqn:Ha.
  2: { unfold move_construct, bind, pointers in Hrun. by rewrite Ha in Hrun. }
  destruct (arrays s !! b) as [vb|] eqn:Hb.
  { unfold move_construct, bind, pointers, construct in Hrun.
    rewrite Ha in Hrun. cbn in Hrun. by rewrite Hb in Hrun. }
  rewrite (move_construct_eq s a b va Ha Hb) in Hrun. injection Hrun as <- <-.
  apply wf_moved; [done | congruence | done | done | done].
Qed.

Lemma wf_move_assign s a b r s' :
  wf s -> move_assign b a s = Some (r, s') -> wf s'.
Proof.
  intros Hwf Hrun. destruct (decide (a = b)) as [->|Hne].
  { unfold move_assign in Hrun. rewrite decide_False in Hrun by auto.
    by injection Hrun as <- <-. }
  destruct (arrays s !! b) as [vb|] eqn:Hb.
  2: { unfold move_assign in Hrun. rewrite decide_True in Hrun by done.
       unfold clear, bind, pointers in Hrun. by rewrite Hb in Hrun. }
  destruct (arrays s !! a) as [va|] eqn:Ha.
  2: { unfold move_assign in Hrun. rewrite decide_True in Hrun by done.
       unfold bind at 1 in Hrun. rewrite (clear_eq s b vb Hwf Hb) in Hrun.
       unfold bind, pointers in Hrun. cbn in Hrun.
       by rewrite lookup_insert_ne, Ha in Hrun. }
  rewrite (move_assign_eq s a b va vb Hwf Hne Ha Hb) in Hrun.
  injection Hrun as <- <-.
  apply wf_moved; [done | done | done | |].
  - intros q Hq. rewrite lookup_release, decide_False; [done |].
    by eapply (wf_disjoint s a b va vb); [apply Hwf | ..].
  - intros c' v' q Hc'b Hc' Hq. rewrite lookup_release, decide_False; [done |].
    by eapply (wf_disjoint s c' b v' vb); [apply Hwf | ..].
Qed.

(** *** Read-only member functions *)

Lemma size_eq s c v :
  arrays s !! c = Some v -> size c s = Some (Normal (vector_size v), s).
Proof. intros Hc. unfold size, bind, pointers. by rewrite Hc. Qed.

Lemma vector_size_lt v (index : N) :
  (index < vector_size v)%N <-> N.to_nat index < length v.
Proof. unfold vector_size. lia. Qed.

Lemma subscript_in s c v (index : N) :
  wf s -> arrays s !! c = Some v -> (index < vector_size v)%N ->
  exists a x,
    subscript c index s = Some (Normal a, s) /\
    v !! N.to_nat index = Some (Some a) /\
    heap s !! a = Some x /\
    element s c (N.to_nat index) = Some x.
Proof.
  intros Hwf Hc Hlt. apply vector_size_lt in Hlt as Hlt'.
  destruct (lookup_lt_is_Some_2 v _ Hlt') as [p Hp].
  destruct (wf_slot s c v p Hwf Hc) as (a & -> & x & Hx).
  { by eapply list_elem_of_lookup_2. }
  exists a, x. unfold subscript, bind, pointers. rewrite Hc.
  apply N.leb_gt in Hlt. rewrite Hlt.
  unfold vector_at. rewrite Hp. cbn. rewrite Hx.
  unfold element. by rewrite Hc, Hp.
Qed.

Lemma subscript_out s c v (index : N) :
  arrays s !! c = Some v -> ~ (index < vector_size v)%N ->
  subscript c index s =
  Some (Thrown (out_of_range (index_message index (vector_size v))), s).
Proof.
  intros Hc Hge. unfold subscript, bind, pointers. rewrite Hc.
  apply N.nlt_ge, N.leb_le in Hge. by rewrite Hge.
Qed.

Lemma emplace_eq {Args} (ctor : Args -> result T) s c v args x :
  arrays s !! c = Some v -> ctor args = Normal x ->
  emplace ctor c args s =
  Some (Normal tt,
        State (<[fresh (dom (heap s)) := x]> (heap s))
              (<[c := v ++ [Some (fresh (dom (heap s)))]]> (arrays s))).
Proof.
  intros Hc Hctor. unfold emplace. rewrite Hctor.
  unfold push_back, bind, new_, pointers, set_pointers. cbn.
  rewrite Hc. cbn. by rewrite Hc.
Qed.

Lemma fresh_not_live s : heap s !! fresh (dom (heap s)) = None.
Proof. apply not_elem_of_dom. apply is_fresh. Qed.

Lemma insert_fresh_keeps s x a y :
  heap s !! a = Some y -> <[fresh (dom (heap s)) := x]> (heap s) !! a = Some y.
Proof.
  intros Ha. rewrite lookup_insert_ne; [done |].
  intros Heq. pose proof (fresh_not_live s) as Hf. congruence.
Qed.

Lemma get_eq s c v (index : N) :
  arrays s !! c = Some v ->
  get c index s =
  if (vector_size v <=? index)%N then Some (Normal None, s)
  else match v !! N.to_nat index with
       | Some p => Some (Normal p, s)
       | None => None
       end.
Proof.
  intros Hc. unfold get, bind, pointers, vector_at. rewrite Hc.
  destruct (vector_size v <=? index)%N; [done |].
  by destruct (v !! N.to_nat index).
Qed.

(** Appending to the contents of [c], with a free store that keeps every
    object it had, gives a state related by [appended]. *)
Lemma appended_intro s c v p h' :
  arrays s !! c = Some v ->
  (forall a y, heap s !! a = Some y -> h' !! a = Some y) ->
  appended s (State h' (<[c := v ++ [p]]> (arrays s))) c v p.
Proof.
  intros Hc Hh.
  assert (arrays (State h' (<[c := v ++ [p]]> (arrays s))) !! c
          = Some (v ++ [p])) as Hc' by apply lookup_insert_eq.
  assert (vector_size (v ++ [p]) = (vector_size v + 1)%N) as Hsz.
  { unfold vector_size. rewrite length_app. cbn. lia. }
  split_and!.
  - rewrite (size_eq _ c _ Hc'). by rewrite Hsz.
  - rewrite (get_eq _ c _ _ Hc'), Hsz.
    replace (vector_size v + 1 - 1)%N with (vector_size v) by lia.
    rewrite (proj2 (N.leb_gt _ _)) by lia.
    unfold vector_size. rewrite Nat2N.id.
    by rewrite lookup_app_r, Nat.sub_diag by done.
  - intros index q Hlt. rewrite (get_eq s c v _ Hc), (get_eq _ c _ _ Hc'), Hsz.
    rewrite !(proj2 (N.leb_gt _ _)) by lia.
    apply vector_size_lt in Hlt. rewrite lookup_app_l by done.
    destruct (v !! N.to_nat index); [|done]. by intros [= ->].
  - intros i y. unfold element. rewrite Hc, Hc'.
    destruct (v !! i) as [[a|]|] eqn:Hi; try done.
    rewrite lookup_app_l by (by eapply lookup_lt_Some). rewrite Hi. apply Hh.
  - intros c' Hne. cbn. by rewrite lookup_insert_ne.
Qed.

(** *** No null slot, whatever the caller does

    [add] checks its argument and [new] never yields [nullptr], so no call
    sequence puts a null pointer in a container; this needs nothing from
    the caller, unlike [wf]. *)

Lemma for_each_delete_arrays v : forall s r s',
  for_each v delete_ s = Some (r, s') -> r = Normal tt /\ arrays s' = arrays s.
Proof.
  induction v as [|p v IH]; intros s r s' Hrun.
  - by injection Hrun as <- <-.
  - cbn [for_each] in Hrun. unfold bind at 1 in Hrun.
    destruct p as [a|]; cbn [delete_] in Hrun.
    + destruct (heap s !! a); [|done].
      by destruct (IH _ _ _ Hrun) as [-> ->].
    + by apply IH.
Qed.

Lemma clear_arrays s c r s' :
  clear c s = Some (r, s') ->
  r = Normal tt /\ arrays s' = <[c := []]> (arrays s).
Proof.
  unfold clear, bind at 1, pointers.
  destruct (arrays s !! c) as [v|] eqn:Hc; [|done].
  unfold bind. destruct (for_each v delete_ s) as [[r1 s1]|] eqn:Hloop; [|done].
  destruct (for_each_delete_arrays v s r1 s1 Hloop) as [-> Harr].
  unfold set_pointers. rewrite Harr, Hc. by intros [= <- <-].
Qed.

Lemma no_null_insert_map h (m : gmap positive (list (option positive))) c w h' :
  no_null (State h m) -> None ∉ w -> no_null (State h' (<[c := w]> m)).
Proof.
  intros Hnn Hw c0 v0 Hc0. cbn in Hc0.
  destruct (decide (c0 = c)) as [->|Hne].
  - rewrite lookup_insert_eq in Hc0. by injection Hc0 as <-.
  - rewrite lookup_insert_ne in Hc0 by done. by eapply (Hnn c0).
Qed.

Lemma no_null_insert s c w h' :
  no_null s -> None ∉ w -> no_null (State h' (<[c := w]> (arrays s))).
Proof. destruct s as [h m]. apply no_null_insert_map. Qed.

Lemma no_null_arrays s s' :
  arrays s' = arrays s -> no_null s -> no_null s'.
Proof. intros Heq Hnn c v. rewrite Heq. apply Hnn. Qed.

Lemma no_null_init : no_null (@init T).
Proof. intros c v Hc. cbn in Hc. by rewrite lookup_empty in Hc. Qed.

Lemma no_null_construct s c r s' :
  no_null s -> construct c s = Some (r, s') -> no_null s'.
Proof.
  intros Hnn. unfold construct. destruct (arrays s !! c); [done |].
  intros [= <- <-]. apply no_null_insert; [done | by intros ?%elem_of_nil].
Qed.

Lemma no_null_add s c p r s' :
  no_null s -> add c p s = Some (r, s') -> no_null s'.
Proof.
  intros Hnn. destruct p as [a|]; cbn [add].
  2: { by intros [= <- <-]. }
  unfold push_back, bind, pointers, set_pointers.
  destruct (arrays s !! c) as [v|] eqn:Hc; [|done]. cbn. rewrite Hc.
  intros [= <- <-]. apply no_null_insert; [done |].
  intros [Hv|Hs%list_elem_of_singleton]%elem_of_app; [|done].
  by apply (Hnn c v).
Qed.

Lemma no_null_emplace {Args} (ctor : Args -> result T) s c args r s' :
  no_null s -> emplace ctor c args s = Some (r, s') -> no_null s'.
Proof.
  intros Hnn. unfold emplace. destruct (ctor args) as [x|e].
  2: { by intros [= <- <-]. }
  unfold push_back, bind, new_, pointers, set_pointers. cbn.
  destruct (arrays s !! c) as [v|] eqn:Hc; [|done]. cbn. rewrite Hc.
  intros [= <- <-]. apply (no_null_insert s); [done |].
  intros [Hv|Hs%list_elem_of_singleton]%elem_of_app; [|done].
  by apply (Hnn c v).
Qed.

Lemma no_null_clear s c r s' :
  no_null s -> clear c s = Some (r, s') -> no_null s'.
Proof.
  intros Hnn [_ Harr]%clear_arrays. destruct s' as [h' m']. cbn in Harr.
  subst m'. apply no_null_insert; [done | by intros ?%elem_of_nil].
Qed.

Lemma no_null_destroy s c r s' :
  no_null s -> destroy c s = Some (r, s') -> no_null s'.
Proof.
  intros Hnn. unfold destroy, bind.
  destruct (clear c s) as [[[[]|e] s1]|] eqn:Hclear; [| |done].
  - intros [= <- <-]. pose proof (no_null_clear _ _ _ _ Hnn Hclear) as Hnn1.
    intros c0 v0 Hc0. cbn in Hc0.
    apply lookup_delete_Some in Hc0 as [_ Hc0]. by eapply Hnn1.
  - intros [= <- <-]. by eapply no_null_clear.
Qed.

Lemma no_null_move_construct s a b r s' :
  no_null s -> move_construct b a s = Some (r, s') -> no_null s'.
Proof.
  intros Hnn. unfold move_construct, bind, pointers, construct, set_pointers.
  destruct (arrays s !! a) as [va|] eqn:Ha; [|done].
  destruct (arrays s !! b) as [vb|] eqn:Hb; [done |]. cbn.
  rewrite lookup_insert_eq. cbn.
  destruct (<[b:=va]> (<[b:=[]]> (arrays s)) !! a); [|done].
  intros [= <- <-].
  apply (no_null_insert_map (heap s)); [| by intros ?%elem_of_nil].
  apply (no_null_insert_map (heap s)); [| by apply (Hnn a va)].
  apply no_null_insert; [done | by intros ?%elem_of_nil].
Qed.

Lemma no_null_move_assign s a b r s' :
  no_null s -> move_assign b a s = Some (r, s') -> no_null s'.
Proof.
  intros Hnn. unfold move_assign. case_decide as Hne.
  2: { by intros [= <- <-]. }
  unfold bind at 1.
  destruct (clear b s) as [[r1 s1]|] eqn:Hclear; [|done].
  pose proof (no_null_clear _ _ _ _ Hnn Hclear) as Hnn1.
  destruct (clear_arrays _ _ _ _ Hclear) as [-> Harr].
  unfold bind, pointers, set_pointers.
  destruct (arrays s1 !! a) as [va|] eqn:Ha; [|done].
  destruct (arrays s1 !! b); [|done]. cbn.
  destruct (<[b:=va]> (arrays s1) !! a); [|done].
  intros [= <- <-].
  apply (no_null_insert_map (heap s1)); [| by intros ?%elem_of_nil].
  apply no_null_insert; [done |]. by apply (Hnn1 a va).
Qed.

(** *** Sequences of calls *)

Lemma keeps_wf_bind {A B} (m : M T A) (k : A -> M T B) :
  keeps_wf m -> (forall x, keeps_wf (k x)) -> keeps_wf (bind m k).
Proof.
  intros Hm Hk s r s' Hwf. unfold bind.
  destruct (m s) as [[[x|e] s1]|] eqn:Hrun; [| |done].
  - apply (Hk x). by eapply Hm.
  - intros [= <- <-]. by eapply Hm.
Qed.

Lemma keeps_wf_construct c : keeps_wf (T := T) (construct c).
Proof. intros s r s'. apply wf_construct. Qed.

Lemma keeps_wf_emplace {Args} (ctor : Args -> result T) c args :
  keeps_wf (emplace ctor c args).
Proof. intros s r s'. apply wf_emplace. Qed.

Lemma keeps_wf_clear c : keeps_wf (T := T) (clear c).
Proof. intros s r s'. apply wf_clear. Qed.

Lemma keeps_wf_move_construct a b : keeps_wf (T := T) (move_construct b a).
Proof. intros s r s'. apply wf_move_construct. Qed.

Lemma keeps_wf_move_assign a b : keeps_wf (T := T) (move_assign b a).
Proof. intros s r s'. apply wf_move_assign. Qed.

End Proofs.

Create HintDb keeps_wf.
#[export] Hint Resolve keeps_wf_bind keeps_wf_construct keeps_wf_emplace
  keeps_wf_clear keeps_wf_move_construct keeps_wf_move_assign : keeps_wf.

(** ** The states of [main] *)

Lemma wf_after_main_testArray : wf after_main_testArray.
Proof.
  assert (keeps_wf main_testArray) as Hkeeps.
  { unfold main_testArray. auto 10 with keeps_wf. }
  exact (Hkeeps init _ _ wf_init main_testArray_runs).
Qed.

Lemma wf_two_arrays : wf two_arrays.
Proof.
  assert (keeps_wf main_two_arrays) as Hkeeps.
  { unfold main_two_arrays, main_testArray. auto 10 with keeps_wf. }
  exact (Hkeeps init _ _ wf_init main_two_arrays_runs).
Qed.

(** The scenario of [main]: three elements, the second has value 20, and
    index 10 is reported as out of range for size 3. *)
Example main_scenario :
  size testArray after_main_testArray =
    Some (Normal 3%N, after_main_testArray) /\
  (a <- subscript testArray 1 ;;
   fun s => Some (Normal (getValue <$> heap s !! a), s)) after_main_testArray =
    Some (Normal (Some 20%Z), after_main_testArray) /\
  try_catch (subscript testArray 10 ;;; ret "")
    Exn.std_out_of_range (fun e => ret (Exn.what e)) after_main_testArray =
    Some (Normal "Индекс 10 выходит за границы массива размера 3",
          after_main_testArray).
Proof. by vm_compute. Qed.

(** ** The claims about the container *)

Section Claims.

Context {T : Type}.
Implicit Types (s : state T) (c : positive) (v : list (option positive))
  (h : gmap positive T) (a : positive) (p : option positive).

(** C1. Indexed access, in its mutable and its read-only form, returns the
    element at position [index] exactly when [0 <= index < size()]; at any
    other index it throws [std::out_of_range], and the message spells out
    the index and the current size, so that both can be read back from it. *)
Theorem subscript_bounds s c v (index : N) :
  wf s -> arrays s !! c = Some v ->
  subscript_const c index s = subscript c index s /\
  ((exists a, subscript c index s = Some (Normal a, s)) <->
     (0 <= index < vector_size v)%N) /\
  ((index < vector_size v)%N ->
     exists a x,
       subscript c index s = Some (Normal a, s) /\
       v !! N.to_nat index = Some (Some a) /\
       heap s !! a = Some x /\
       element s c (N.to_nat index) = Some x) /\
  (~ (index < vector_size v)%N ->
     exists e,
       subscript c index s = Some (Thrown e, s) /\
       Exn.dyn e = Exn.std_out_of_range /\
       Exn.what e =
         "Индекс " +:+ to_string index +:+
         " выходит за границы массива размера " +:+
         to_string (vector_size v) /\
       (forall i' n', index_message i' n' = Exn.what e ->
          i' = index /\ n' = vector_size v)) /\
  size c s = Some (Normal (vector_size v), s).
Proof.
  intros Hwf Hc.
  pose proof (subscript_in s c v index Hwf Hc) as Hin.
  pose proof (subscript_out s c v index Hc) as Hout.
  split_and!.
  - reflexivity.
  - split.
    + intros [a Ha]. split; [lia |].
      destruct (decide (index < vector_size v)%N) as [|Hge]; [done |].
      rewrite (Hout Hge) in Ha. discriminate.
    + intros [_ Hlt]. destruct (Hin Hlt) as (a & _ & Ha & _). eauto.
  - exact Hin.
  - intros Hge. eexists. split_and!; [exact (Hout Hge) | done | done |].
    intros i' n' Heq. by apply index_message_inj.
  - by apply size_eq.
Qed.

(** C2. Moving container [a] into [b], by move construction or by move
    assignment to a different container: [b] has the size [a] had and the
    same objects at the same indices, unchanged; [a] is left with size zero
    and owns nothing; the invariant holds, and [emplace] on [a] then works
    as on any empty container, without disturbing [b]. *)
Theorem move_transfers {Args} (ctor : Args -> result T) s a b va
    (mv : M T unit) :
  wf s -> arrays s !! a = Some va ->
  (mv = move_construct b a /\ arrays s !! b = None) \/
  (mv = move_assign b a /\ a <> b /\ is_Some (arrays s !! b)) ->
  exists s',
    mv s = Some (Normal tt, s') /\
    (exists n, size a s = Some (Normal n, s) /\
               size b s' = Some (Normal n, s')) /\
    (forall (index : N) q, get a index s = Some (Normal q, s) ->
       get b index s' = Some (Normal q, s')) /\
    (forall (index : N), (index < vector_size va)%N ->
       exists r x,
         subscript a index s = Some (Normal r, s) /\
         subscript b index s' = Some (Normal r, s') /\
         heap s !! r = Some x /\ heap s' !! r = Some x) /\
    (forall i, element s' b i = element s a i) /\
    size a s' = Some (Normal 0%N, s') /\
    empty a s' = Some (Normal true, s') /\
    arrays s' !! a = Some [] /\
    wf s' /\
    (forall args x, ctor args = Normal x ->
       exists r s'',
         emplace ctor a args s' = Some (Normal tt, s'') /\
         appended s' s'' a [] (Some r) /\
         element s'' a 0 = Some x /\
         (forall i y, element s a i = Some y -> element s'' b i = Some y)).
Proof.
  intros Hwf Ha Hmv.
  assert (a <> b /\ exists h',
    mv s = Some (Normal tt, State h' (<[a := []]> (<[b := va]> (arrays s)))) /\
    wf (State h' (<[a := []]> (<[b := va]> (arrays s)))) /\
    (forall q, Some q ∈ va -> h' !! q = heap s !! q)) as (Hne & h' & Hrun & Hwf' & Hh').
  { destruct Hmv as [[-> Hb] | (-> & Hne & [vb Hb])].
    - split; [congruence |]. exists (heap s). split_and!.
      + by apply move_construct_eq.
      + eapply wf_move_construct; [exact Hwf | by apply move_construct_eq].
      + done.
    - split; [done |]. exists (release vb (heap s)). split_and!.
      + by apply move_assign_eq.
      + eapply wf_move_assign; [exact Hwf | by eapply move_assign_eq].
      + intros q Hq. rewrite lookup_release, decide_False; [done |].
        by eapply (wf_disjoint s a b va vb); [apply Hwf | ..]. }
  set (s' := State h' (<[a := []]> (<[b := va]> (arrays s)))) in *.
  assert (arrays s' !! b = Some va) as Hb'.
  { cbn. rewrite lookup_insert_ne by done. apply lookup_insert_eq. }
  assert (arrays s' !! a = Some []) as Ha' by apply lookup_insert_eq.
  assert (forall i, element s' b i = element s a i) as Helem.
  { intros i. unfold element. rewrite Hb', Ha.
    destruct (va !! i) as [[q|]|] eqn:Hi; try done.
    apply Hh'. by eapply list_elem_of_lookup_2. }
  exists s'. split_and!; try done.
  - exists (vector_size va). by rewrite (size_eq s a va), (size_eq s' b va).
  - intros index q. rewrite (get_eq s a va), (get_eq s' b va) by done.
    destruct (vector_size va <=? index)%N; [by intros [= ->] |].
    destruct (va !! N.to_nat index); [by intros [= ->] | done].
  - intros index Hlt.
    destruct (subscript_in s a va index Hwf Ha Hlt) as (r & x & Hs & Hr & Hx & _).
    destruct (subscript_in s' b va index Hwf' Hb' Hlt)
      as (r' & x' & Hs' & Hr' & Hx' & _).
    assert (r' = r) as -> by congruence.
    exists r, x. split_and!; try done.
    rewrite <- Hx. apply Hh'. by eapply list_elem_of_lookup_2.
  - by rewrite (size_eq s' a []).
  - unfold empty, bind, pointers. by rewrite Ha'.
  - intros args x Hctor. exists (fresh (dom (heap s'))). eexists. split_and!.
    + by apply (emplace_eq ctor s' a []).
    + apply appended_intro; [done |]. intros q y. apply insert_fresh_keeps.
    + unfold element. cbn. rewrite lookup_insert_eq. cbn.
      by rewrite lookup_insert_eq.
    + intros i y Hi. rewrite <- Helem in Hi. unfold element in *. cbn in *.
      rewrite lookup_insert_ne by done.
      rewrite lookup_insert_ne, lookup_insert_eq in Hi by done.
      rewrite lookup_insert_ne, lookup_insert_eq by done.
      destruct (va !! i) as [[q|]|]; try done.
      by apply (insert_fresh_keeps s').
Qed.

(** C3. [add(nullptr)] throws [std::invalid_argument], a class outside the
    [ProgramError] family, and the state (so the size and the contents of
    every container) is what it was before the call. *)
Theorem add_nullptr_rejected s c :
  add c None s =
    Some (Thrown (invalid_argument "Передан нулевой указатель"), s) /\
  Exn.catches Exn.std_invalid_argument
    (invalid_argument "Передан нулевой указатель") = true /\
  Exn.catches Exn.ProgramError
    (invalid_argument "Передан нулевой указатель") = false /\
  try_catch (add c None) Exn.std_invalid_argument (fun _ => ret tt) s =
    Some (Normal tt, s).
Proof. by split_and!. Qed.

(** C4. When the constructor of [T] throws, [emplace] throws the same
    exception and the state is unchanged: no object was added to the free
    store and no container was touched. *)
Theorem emplace_ctor_throws {Args} (ctor : Args -> result T) s c args e :
  ctor args = Thrown e ->
  emplace ctor c args s = Some (Thrown e, s).
Proof. intros Hctor. unfold emplace. by rewrite Hctor. Qed.

(** C5. [clear()] destroys every object the container owns and nothing
    else, leaves the size at zero, succeeds also on an empty container, and
    a second call in a row changes nothing. *)
Theorem clear_idempotent s c v :
  wf s -> arrays s !! c = Some v ->
  exists s',
    clear c s = Some (Normal tt, s') /\
    size c s' = Some (Normal 0%N, s') /\
    (forall a, Some a ∈ v -> is_Some (heap s !! a) /\ heap s' !! a = None) /\
    (forall a, Some a ∉ v -> heap s' !! a = heap s !! a) /\
    (forall c', c' <> c -> arrays s' !! c' = arrays s !! c') /\
    clear c s' = Some (Normal tt, s') /\
    (clear c ;;; clear c) s = clear c s /\
    (v = [] -> s' = s).
Proof.
  intros Hwf Hc. eexists. split; [by apply clear_eq |].
  assert (wf (State (release v (heap s)) (<[c := []]> (arrays s)))) as Hwf'.
  { eapply wf_clear; [exact Hwf | by apply clear_eq]. }
  assert (clear c (State (release v (heap s)) (<[c := []]> (arrays s))) =
          Some (Normal tt, State (release v (heap s)) (<[c := []]> (arrays s))))
    as Hagain.
  { rewrite (clear_eq _ c [] Hwf') by apply lookup_insert_eq.
    cbn. by rewrite insert_insert_eq. }
  split_and!.
  - by rewrite (size_eq _ c []) by apply lookup_insert_eq.
  - intros a Ha. split.
    + by apply (wf_all_live s Hwf c v).
    + cbn. by rewrite lookup_release, decide_True.
  - intros a Ha. cbn. by rewrite lookup_release, decide_False.
  - intros c' Hne. cbn. by rewrite lookup_insert_ne.
  - exact Hagain.
  - unfold bind at 1. rewrite (clear_eq s c v Hwf Hc). exact Hagain.
  - intros ->. destruct s as [h m]. cbn in *. f_equal. by apply insert_id.
Qed.

(** C6. [get] never throws: below [size()] it returns the stored pointer,
    which is not null; from [size()] on it returns [nullptr]; the state is
    unchanged either way. *)
Theorem get_never_throws s c v (index : N) :
  no_null s -> arrays s !! c = Some v ->
  exists p,
    get c index s = Some (Normal p, s) /\
    ((index < vector_size v)%N ->
       p <> None /\ v !! N.to_nat index = Some p) /\
    ((vector_size v <= index)%N -> p = None).
Proof.
  intros Hnn Hc. unfold get, bind, pointers. rewrite Hc.
  destruct (vector_size v <=? index)%N eqn:Hcmp.
  - exists None. apply N.leb_le in Hcmp. split_and!; [done | lia | done].
  - apply N.leb_gt in Hcmp. apply vector_size_lt in Hcmp as Hlt.
    destruct (lookup_lt_is_Some_2 v _ Hlt) as [p Hp].
    exists p. unfold vector_at. rewrite Hp. split_and!; [done | | lia].
    intros _. split; [|done]. intros ->.
    apply (Hnn c v Hc). by eapply list_elem_of_lookup_2.
Qed.

(** C7. A successful [add] of a non-null pointer and a successful [emplace]
    each put exactly one element at the end: the size grows by one, the new
    element is at index [size() - 1], and the elements stored before are at
    their indices, unchanged. *)
Theorem append_one {Args} (ctor : Args -> result T) s c v :
  arrays s !! c = Some v ->
  (forall a, exists s',
     add c (Some a) s = Some (Normal tt, s') /\
     heap s' = heap s /\
     appended s s' c v (Some a)) /\
  (forall args x, ctor args = Normal x -> exists a s',
     emplace ctor c args s = Some (Normal tt, s') /\
     heap s !! a = None /\
     heap s' = <[a := x]> (heap s) /\
     element s' c (length v) = Some x /\
     appended s s' c v (Some a)).
Proof.
  intros Hc. split.
  - intros a. eexists. split_and!.
    + unfold add, push_back, bind, pointers, set_pointers.
      rewrite Hc. cbn. by rewrite Hc.
    + done.
    + by apply appended_intro.
  - intros args x Hctor. exists (fresh (dom (heap s))). eexists. split_and!.
    + by apply emplace_eq.
    + apply fresh_not_live.
    + done.
    + unfold element. cbn. rewrite lookup_insert_eq.
      rewrite lookup_app_r, Nat.sub_diag by done. cbn.
      by rewrite lookup_insert_eq.
    + apply appended_intro; [done |]. intros b y. apply insert_fresh_keeps.
Qed.

End Claims.

(** ** The claim about the exception hierarchy *)

(** C8. Each of the four classes derived from [ProgramError] carries its own
    fixed message, and an exception of the class is caught by a handler for
    that class and by a handler for [ProgramError] (and [std::exception]),
    but by no handler for one of the other three. *)
Theorem domain_errors_catchable :
  Exn.what InsufficientPrivilegesError =
    "Недостаточно привилегий для выполнения операции" /\
  Exn.what ConversionError = "Ошибка преобразования типов данных" /\
  Exn.what ValueConversionError = "Невозможно преобразовать значение" /\
  Exn.what InterfaceCastError = "Невозможно привести к интерфейсу" /\
  NoDup (Exn.dyn <$> domain_errors) /\
  NoDup (Exn.what <$> domain_errors) /\
  Forall (fun e =>
    Exn.base (Exn.dyn e) = Some Exn.ProgramError /\
    Exn.catches (Exn.dyn e) e = true /\
    Exn.catches Exn.ProgramError e = true /\
    Exn.catches Exn.std_exception e = true /\
    Forall (fun e' => Exn.catches (Exn.dyn e') e = true -> e' = e)
      domain_errors /\
    forall (T A : Type) (s : state T) (handler : exn -> M T A),
      try_catch (throw e) (Exn.dyn e) handler s = handler e s /\
      try_catch (throw e) Exn.ProgramError handler s = handler e s)
    domain_errors.
Proof.
  split_and!; try reflexivity.
  - apply (bool_decide_unpack _). by vm_compute.
  - apply (bool_decide_unpack _). by vm_compute.
  - repeat apply Forall_cons_2; try apply Forall_nil_2;
      (split_and!; try reflexivity;
       [ repeat apply Forall_cons_2; try apply Forall_nil_2;
         cbn; intros; (reflexivity || discriminate)
       | intros; split; reflexivity ]).
Qed.

(** ** The claims about move assignment *)

Section MoveAssignment.

Context {T : Type}.
Implicit Types (s : state T) (a : positive).

(** C9. Move-assigning [a] to a different container [b] first destroys
    every object that [b] owned; afterwards [b] holds exactly the pointers
    that [a] held, so its size is the former size of [a], and the objects
    behind them are alive and unchanged. *)
Theorem move_assign_replaces s a b va vb :
  wf s -> a <> b -> arrays s !! a = Some va -> arrays s !! b = Some vb ->
  exists s1 s',
    clear b s = Some (Normal tt, s1) /\
    (forall q, Some q ∈ vb -> is_Some (heap s !! q) /\ heap s1 !! q = None) /\
    move_assign b a s = Some (Normal tt, s') /\
    heap s' = heap s1 /\
    arrays s' !! b = Some va /\
    size a s = Some (Normal (vector_size va), s) /\
    size b s' = Some (Normal (vector_size va), s') /\
    (forall q, Some q ∈ va -> is_Some (heap s' !! q)) /\
    (forall i, element s' b i = element s a i).
Proof.
  intros Hwf Hne Ha Hb. do 2 eexists. split_and!.
  - by apply clear_eq.
  - intros q Hq. split.
    + by apply (wf_all_live s Hwf b vb).
    + cbn. by rewrite lookup_release, decide_True.
  - by eapply move_assign_eq.
  - done.
  - cbn. rewrite lookup_insert_ne by done. apply lookup_insert_eq.
  - by apply size_eq.
  - apply size_eq. cbn. rewrite lookup_insert_ne by done. apply lookup_insert_eq.
  - intros q Hq. cbn. rewrite lookup_release, decide_False.
    + by apply (wf_all_live s Hwf a va).
    + by eapply (wf_disjoint s a b va vb); [apply Hwf | ..].
  - intros i. unfold element. cbn.
    rewrite lookup_insert_ne, lookup_insert_eq, Ha by done.
    destruct (va !! i) as [[q|]|] eqn:Hi; try done.
    rewrite lookup_release, decide_False; [done |].
    eapply (wf_disjoint s a b va vb); [apply Hwf | done..|].
    by eapply list_elem_of_lookup_2.
Qed.

(** C10. Move-assigning a container to itself does nothing: the state,
    hence the size, the elements and the free store, is unchanged. *)
Theorem move_assign_self s a :
  move_assign a a s = Some (Normal tt, s).
Proof. unfold move_assign. by rewrite decide_False by auto. Qed.

End MoveAssignment.

(** ** The claims at the states of [main] *)

Lemma subscript_bounds_witness :
  wf after_main_testArray /\
  arrays after_main_testArray !! testArray =
    Some [Some 1%positive; Some 2%positive; Some 3%positive] /\
  (exists e,
     subscript testArray 10 after_main_testArray =
       Some (Thrown e, after_main_testArray) /\
     Exn.what e = "Индекс 10 выходит за границы массива размера 3") /\
  (exists a x,
     subscript testArray 1 after_main_testArray =
       Some (Normal a, after_main_testArray) /\
     heap after_main_testArray !! a = Some x).
Proof.
  assert (arrays after_main_testArray !! testArray =
    Some [Some 1%positive; Some 2%positive; Some 3%positive]) as Hc
    by (vm_compute; reflexivity).
  split_and!; [exact wf_after_main_testArray | exact Hc | |].
  - destruct (subscript_bounds after_main_testArray testArray _ 10
                wf_after_main_testArray Hc) as (_ & _ & _ & Hout & _).
    destruct Hout as (e & Hrun & _ & Hmsg & _); [vm_compute; discriminate |].
    exists e. split; [exact Hrun | exact Hmsg].
  - destruct (subscript_bounds after_main_testArray testArray _ 1
                wf_after_main_testArray Hc) as (_ & _ & Hin & _).
    destruct Hin as (a & x & Hrun & _ & Hx & _); [vm_compute; reflexivity |].
    exists a, x. split; [exact Hrun | exact Hx].
Defined.

Lemma emplace_ctor_throws_witness :
  Validated_ctor ("Объект", (-5)%Z) =
    Thrown (invalid_argument "Значение не может быть отрицательным") /\
  emplace Validated_ctor testArray ("Объект", (-5)%Z) after_main_testArray =
    Some (Thrown (invalid_argument "Значение не может быть отрицательным"),
          after_main_testArray).
Proof.
  split; [reflexivity |].
  apply (emplace_ctor_throws Validated_ctor after_main_testArray testArray
           ("Объект", (-5)%Z)).
  reflexivity.
Defined.

Lemma clear_idempotent_witness :
  wf after_main_testArray /\
  arrays after_main_testArray !! testArray =
    Some [Some 1%positive; Some 2%positive; Some 3%positive] /\
  exists s',
    clear testArray after_main_testArray = Some (Normal tt, s') /\
    size testArray s' = Some (Normal 0%N, s') /\
    clear testArray s' = Some (Normal tt, s').
Proof.
  assert (arrays after_main_testArray !! testArray =
    Some [Some 1%positive; Some 2%positive; Some 3%positive]) as Hc
    by (vm_compute; reflexivity).
  split_and!; [exact wf_after_main_testArray | exact Hc |].
  destruct (clear_idempotent after_main_testArray testArray _
              wf_after_main_testArray Hc)
    as (s' & Hrun & Hsize & _ & _ & _ & Hagain & _).
  exists s'. split_and!; [exact Hrun | exact Hsize | exact Hagain].
Defined.

Lemma get_never_throws_witness :
  no_null after_main_testArray /\
  arrays after_main_testArray !! testArray =
    Some [Some 1%positive; Some 2%positive; Some 3%positive] /\
  exists p,
    get testArray 10 after_main_testArray =
      Some (Normal p, after_main_testArray) /\
    p = None.
Proof.
  assert (arrays after_main_testArray !! testArray =
    Some [Some 1%positive; Some 2%positive; Some 3%positive]) as Hc
    by (vm_compute; reflexivity).
  pose proof (wf_no_null _ wf_after_main_testArray) as Hnn.
  split_and!; [exact Hnn | exact Hc |].
  destruct (get_never_throws after_main_testArray testArray _ 10 Hnn Hc)
    as (p & Hrun & _ & Hout).
  exists p. split; [exact Hrun |]. apply Hout. vm_compute. discriminate.
Defined.

Lemma append_one_witness :
  arrays after_main_testArray !! testArray =
    Some [Some 1%positive; Some 2%positive; Some 3%positive] /\
  exists a s',
    emplace TestClass_ctor testArray ("Объект 4", 40%Z) after_main_testArray =
      Some (Normal tt, s') /\
    element s' testArray 3 = Some {| name := "Объект 4"; value := 40 |} /\
    appended after_main_testArray s' testArray
      [Some 1%positive; Some 2%positive; Some 3%positive] (Some a).
Proof.
  assert (arrays after_main_testArray !! testArray =
    Some [Some 1%positive; Some 2%positive; Some 3%positive]) as Hc
    by (vm_compute; reflexivity).
  split; [exact Hc |].
  destruct (append_one TestClass_ctor after_main_testArray testArray _ Hc)
    as [_ Hemplace].
  destruct (Hemplace ("Объект 4", 40%Z) _ eq_refl)
    as (a & s' & Hrun & _ & _ & Helem & Happ).
  exists a, s'. split_and!; [exact Hrun | exact Helem | exact Happ].
Defined.

Lemma move_transfers_witness :
  wf two_arrays /\
  arrays two_arrays !! testArray =
    Some [Some 1%positive; Some 2%positive; Some 3%positive] /\
  (exists s',
     move_assign other testArray two_arrays = Some (Normal tt, s') /\
     arrays s' !! testArray = Some [] /\ wf s') /\
  (exists s',
     move_construct 3%positive testArray two_arrays = Some (Normal tt, s') /\
     arrays s' !! testArray = Some [] /\ wf s').
Proof.
  assert (arrays two_arrays !! testArray =
    Some [Some 1%positive; Some 2%positive; Some 3%positive]) as Hc
    by (vm_compute; reflexivity).
  split_and!; [exact wf_two_arrays | exact Hc | |].
  - destruct (move_transfers TestClass_ctor two_arrays testArray other _
                (move_assign other testArray) wf_two_arrays Hc)
      as (s' & Hrun & _ & _ & _ & _ & _ & _ & Hempty & Hwf & _).
    { right. split_and!; [reflexivity | discriminate |].
      exists [Some 4%positive]. vm_compute. reflexivity. }
    exists s'. split_and!; [exact Hrun | exact Hempty | exact Hwf].
  - destruct (move_transfers TestClass_ctor two_arrays testArray 3%positive _
                (move_construct 3%positive testArray) wf_two_arrays Hc)
      as (s' & Hrun & _ & _ & _ & _ & _ & _ & Hempty & Hwf & _).
    { left. split; [reflexivity | vm_compute; reflexivity]. }
    exists s'. split_and!; [exact Hrun | exact Hempty | exact Hwf].
Defined.

Lemma move_assign_replaces_witness :
  wf two_arrays /\
  other <> testArray /\
  arrays two_arrays !! other = Some [Some 4%positive] /\
  arrays two_arrays !! testArray =
    Some [Some 1%positive; Some 2%positive; Some 3%positive] /\
  exists s',
    move_assign testArray other two_arrays = Some (Normal tt, s') /\
    size testArray s' = Some (Normal 1%N, s') /\
    heap s' !! 1%positive = None.
Proof.
  assert (arrays two_arrays !! other = Some [Some 4%positive]) as Ha
    by (vm_compute; reflexivity).
  assert (arrays two_arrays !! testArray =
    Some [Some 1%positive; Some 2%positive; Some 3%positive]) as Hb
    by (vm_compute; reflexivity).
  assert (other <> testArray) as Hne by discriminate.
  split_and!; [exact wf_two_arrays | exact Hne | exact Ha | exact Hb |].
  destruct (move_assign_replaces two_arrays other testArray _ _
              wf_two_arrays Hne Ha Hb)
    as (s1 & s' & _ & Hgone & Hrun & Hheap & _ & _ & Hsize & _).
  exists s'. split_and!; [exact Hrun | exact Hsize |].
  rewrite Hheap. apply Hgone. left.
Defined.

(** ** Further properties of the container *)

Section More.

Context {T : Type}.
Implicit Types (s : state T) (c : positive) (v : list (option positive))
  (h : gmap positive T) (a : positive) (p : option positive).

Lemma destroy_eq s c v :
  wf s -> arrays s !! c = Some v ->
  destroy c s =
  Some (Normal tt, State (release v (heap s)) (delete c (arrays s))).
Proof.
  intros Hwf Hc. unfold destroy, bind. rewrite (clear_eq s c v Hwf Hc).
  cbn. by rewrite delete_insert_eq.
Qed.

Lemma wf_delete h' (m : gmap positive (list (option positive))) c :
  wf (State h' (<[c := []]> m)) -> wf (State h' (delete c m)).
Proof.
  intros [Hn Hl Hu].
  assert (forall c' v', delete c m !! c' = Some v' ->
            <[c := []]> m !! c' = Some v') as Hsub.
  { intros c' v' [Hne Hc']%lookup_delete_Some. by rewrite lookup_insert_ne. }
  split.
  - intros c' v' Hc'. apply (Hn c'). by apply Hsub.
  - intros c' v' a Hc'. apply (Hl c'). by apply Hsub.
  - intros c1 c2 v1 v2 i j p H1 H2. apply Hu; by apply Hsub.
Qed.

Lemma wf_destroy s c r s' : wf s -> destroy c s = Some (r, s') -> wf s'.
Proof.
  intros Hwf Hrun.
  destruct (arrays s !! c) as [v|] eqn:Hc.
  2: { unfold destroy, bind, clear, bind, pointers in Hrun.
       by rewrite Hc in Hrun. }
  rewrite (destroy_eq s c v Hwf Hc) in Hrun. injection Hrun as <- <-.
  apply wf_delete. eapply wf_clear; [exact Hwf | by apply clear_eq].
Qed.

(** What the member functions declared [const] compute. *)
Lemma empty_eq s c v :
  arrays s !! c = Some v ->
  empty c s = Some (Normal (bool_decide (v = [])), s).
Proof. intros Hc. unfold empty, bind, pointers. by rewrite Hc. Qed.

Lemma subscript_eq s c v (index : N) :
  arrays s !! c = Some v ->
  subscript c index s =
  if (vector_size v <=? index)%N then
    Some (Thrown (out_of_range (index_message index (vector_size v))), s)
  else match v !! N.to_nat index with
       | Some (Some a) => match heap s !! a with
                          | Some _ => Some (Normal a, s)
                          | None => None
                          end
       | _ => None
       end.
Proof.
  intros Hc. unfold subscript, bind, pointers, vector_at. rewrite Hc.
  destruct (vector_size v <=? index)%N; [done |].
  by destruct (v !! N.to_nat index) as [[a|]|].
Qed.

(** X1. The destructor destroys every object the container owns and no
    other, takes the container out of the store, leaves the other
    containers as they were, never throws, and keeps the invariant. *)
Theorem destroy_frees_all s c v :
  wf s -> arrays s !! c = Some v ->
  exists s',
    destroy c s = Some (Normal tt, s') /\
    arrays s' !! c = None /\
    (forall a, Some a ∈ v -> is_Some (heap s !! a) /\ heap s' !! a = None) /\
    (forall a, Some a ∉ v -> heap s' !! a = heap s !! a) /\
    (forall c', c' <> c -> arrays s' !! c' = arrays s !! c') /\
    (forall c' i, c' <> c -> element s' c' i = element s c' i) /\
    wf s'.
Proof.
  intros Hwf Hc. eexists. split; [by apply destroy_eq |]. split_and!.
  - cbn. apply lookup_delete_eq.
  - intros a Ha. split.
    + by apply (wf_all_live s Hwf c v).
    + cbn. by rewrite lookup_release, decide_True.
  - intros a Ha. cbn. by rewrite lookup_release, decide_False.
  - intros c' Hne. cbn. by rewrite lookup_delete_ne.
  - intros c' i Hne. unfold element. cbn. rewrite lookup_delete_ne by done.
    destruct (arrays s !! c') as [v'|] eqn:Hc'; [|done].
    destruct (v' !! i) as [[a|]|] eqn:Hi; try done.
    rewrite lookup_release, decide_False; [done |].
    eapply (wf_disjoint s c' c v' v); [apply Hwf | done..|].
    by eapply list_elem_of_lookup_2.
  - eapply wf_destroy; [exact Hwf | by apply destroy_eq].
Qed.

(** The member functions declared [const] leave the state as it was,
    whether they return or throw. *)
Lemma const_members_keep_state s s' c (index : N) :
  (forall r, size c s = Some (r, s') -> s' = s) /\
  (forall r, empty c s = Some (r, s') -> s' = s) /\
  (forall r, get c index s = Some (r, s') -> s' = s) /\
  (forall r, subscript_const c index s = Some (r, s') -> s' = s) /\
  (forall r, subscript c index s = Some (r, s') -> s' = s).
Proof.
  assert (forall r, subscript c index s = Some (r, s') -> s' = s) as Hsub.
  { intros r. destruct (arrays s !! c) as [v|] eqn:Hc.
    - rewrite (subscript_eq s c v index Hc).
      repeat case_match; naive_solver.
    - unfold subscript, bind, pointers. by rewrite Hc. }
  split_and!; try exact Hsub; intros r;
    (destruct (arrays s !! c) as [v|] eqn:Hc;
     [| unfold size, empty, get, bind, pointers; by rewrite Hc]).
  - rewrite (size_eq s c v Hc). naive_solver.
  - rewrite (empty_eq s c v Hc). naive_solver.
  - rewrite (get_eq s c v index Hc). repeat case_match; naive_solver.
Qed.

(** X2. [empty()] answers [true] exactly when [size()] answers 0. *)
Theorem empty_iff_size_zero s c v :
  arrays s !! c = Some v ->
  exists b n,
    empty c s = Some (Normal b, s) /\
    size c s = Some (Normal n, s) /\
    (b = true <-> n = 0%N).
Proof.
  intros Hc. exists (bool_decide (v = [])), (vector_size v).
  split_and!; [by apply empty_eq | by apply size_eq |].
  rewrite bool_decide_eq_true. unfold vector_size.
  destruct v; cbn; split; (done || lia).
Qed.

(** X3. [get] and [operator[]] agree: [get] returns the address that
    [operator[]] returns a reference to, and it returns [nullptr] exactly
    at the indices where [operator[]] throws. *)
Theorem get_agrees_with_subscript s c v (index : N) :
  wf s -> arrays s !! c = Some v ->
  (forall a, get c index s = Some (Normal (Some a), s) <->
             subscript c index s = Some (Normal a, s)) /\
  (get c index s = Some (Normal None, s) <->
   exists e, subscript c index s = Some (Thrown e, s)).
Proof.
  intros Hwf Hc. rewrite (get_eq s c v index Hc), (subscript_eq s c v index Hc).
  destruct (vector_size v <=? index)%N eqn:Hcmp.
  - split; [split; intros [=] | split; eauto].
  - apply N.leb_gt, vector_size_lt in Hcmp.
    destruct (lookup_lt_is_Some_2 v _ Hcmp) as [p Hp]. rewrite Hp.
    destruct (wf_slot s c v p Hwf Hc) as (a & -> & x & Hx).
    { by eapply list_elem_of_lookup_2. }
    rewrite Hx. split.
    + intros a'. split; by intros [= ->].
    + split; [intros [=] | intros [e [=]]].
Qed.


Lemma for_each_app v w (body : option positive -> M T unit) s :
  for_each (v ++ w) body s = (for_each v body ;;; for_each w body) s.
Proof.
  revert s. induction v as [|p v IH]; intros s; [done |].
  cbn [app for_each]. unfold bind.
  destruct (body p s) as [[[[]|e] s1]|]; [| done..].
  rewrite IH. reflexivity.
Qed.

Lemma delete_twice a s : for_each [Some a; Some a] delete_ s = None.
Proof.
  cbn [for_each]. unfold bind, delete_.
  destruct (heap s !! a); [|done]. cbn. by rewrite lookup_delete_eq.
Qed.

(** X5. The functions declared [noexcept], [clear], the destructor and the
    default constructor, as well as [size], [empty] and [get], never end
    with an exception. *)
Theorem members_never_throw s s' a b c (index : N) :
  (forall r, construct c s = Some (r, s') -> r = Normal tt) /\
  (forall r, clear c s = Some (r, s') -> r = Normal tt) /\
  (forall r, destroy c s = Some (r, s') -> r = Normal tt) /\
  (forall r, move_construct b a s = Some (r, s') -> r = Normal tt) /\
  (forall r, move_assign b a s = Some (r, s') -> r = Normal tt) /\
  (forall r, size c s = Some (r, s') -> exists n, r = Normal n) /\
  (forall r, empty c s = Some (r, s') -> exists e, r = Normal e) /\
  (forall r, get c index s = Some (r, s') -> exists p, r = Normal p).
Proof.
  split_and!; intros r.
  - unfold construct. case_match; naive_solver.
  - by intros [-> _]%clear_arrays.
  - unfold destroy, bind.
    destruct (clear c s) as [[r1 s1]|] eqn:Hclear; [|done].
    apply clear_arrays in Hclear as [-> _]. naive_solver.
  - unfold move_construct, bind, pointers, construct, set_pointers.
    repeat (case_match; simplify_eq/=; try done); naive_solver.
  - unfold move_assign. case_decide; [| by intros [= <- <-]]. unfold bind at 1.
    destruct (clear b s) as [[r1 s1]|] eqn:Hclear; [|done].
    apply clear_arrays in Hclear as [-> _].
    unfold bind, pointers, set_pointers.
    repeat (case_match; simplify_eq/=; try done); naive_solver.
  - unfold size, bind, pointers, ret.
    destruct (arrays s !! c); [|done]. intros [= <- _]. eauto.
  - unfold empty, bind, pointers, ret.
    destruct (arrays s !! c); [|done]. intros [= <- _]. eauto.
  - unfold get, bind, pointers, vector_at, ret, undefined.
    destruct (arrays s !! c) as [v|]; [|done].
    destruct (vector_size v <=? index)%N; [intros [= <- _]; eauto |].
    destruct (v !! N.to_nat index); [|done]. intros [= <- _]. eauto.
Qed.

(** X6. Handing the same pointer to [add] twice makes the next [clear],
    and so the destructor, delete it twice: the behaviour is undefined in
    every state. *)
Theorem add_twice_undefined s c a :
  (add c (Some a) ;;; add c (Some a) ;;; clear c) s = None /\
  (add c (Some a) ;;; add c (Some a) ;;; destroy c) s = None.
Proof.
  assert ((add c (Some a) ;;; add c (Some a) ;;; clear c) s = None) as Hclear.
  { unfold add, push_back, bind at 1 2 3 4, pointers, set_pointers.
    destruct (arrays s !! c) as [v|] eqn:Hc; [|done]. cbn.
    rewrite Hc. cbn. rewrite lookup_insert_eq. cbn. rewrite lookup_insert_eq.
    unfold clear, bind at 1, pointers. cbn. rewrite lookup_insert_eq.
    unfold bind at 1. rewrite <- app_assoc. cbn [app].
    rewrite for_each_app. unfold bind at 1.
    destruct (for_each v delete_ _) as [[r1 s1]|] eqn:Hloop; [|done].
    apply for_each_delete_arrays in Hloop as [-> _].
    by rewrite delete_twice. }
  split; [exact Hclear |].
  unfold destroy. unfold bind at 1 2 3. unfold bind at 1 2 in Hclear.
  destruct (add c (Some a) s) as [[[[]|e] s1]|]; [| done..].
  destruct (add c (Some a) s1) as [[[[]|e] s2]|]; [| done..].
  by rewrite Hclear.
Qed.

(** X7. Moving a container into a new one and move-assigning it back
    restores its contents: the state differs only by the new, empty
    container. *)
Theorem move_round_trip s a b va :
  arrays s !! a = Some va -> arrays s !! b = None ->
  (move_construct b a ;;; move_assign a b) s =
  Some (Normal tt, State (heap s) (<[b := []]> (arrays s))).
Proof.
  intros Ha Hb. assert (a <> b) as Hne by congruence.
  unfold bind at 1. rewrite (move_construct_eq s a b va Ha Hb).
  unfold move_assign. rewrite decide_True by done.
  unfold clear, bind, pointers, set_pointers. cbn.
  rewrite !lookup_insert_eq. cbn. rewrite !lookup_insert_eq. cbn.
  rewrite lookup_insert_ne, lookup_insert_ne, lookup_insert_eq by done. cbn.
  rewrite lookup_insert_eq. cbn.
  rewrite lookup_insert_ne, lookup_insert_ne, lookup_insert_ne,
    lookup_insert_eq by done.
  do 3 f_equal. apply map_eq. intros i.
  destruct (decide (i = b)) as [->|Hib]; [by rewrite !lookup_insert_eq |].
  destruct (decide (i = a)) as [->|Hia]; by simplify_map_eq.
Qed.

(** X8. After a move the destructor of the source destroys nothing, and
    the destructor of the destination then frees every object once: moving
    a container and destroying both ends in the state in which destroying
    the original would have ended. *)
Theorem destroy_after_move s a b va :
  wf s -> arrays s !! a = Some va -> arrays s !! b = None ->
  (exists s1,
     (move_construct b a ;;; destroy a) s = Some (Normal tt, s1) /\
     heap s1 = heap s /\ arrays s1 !! b = Some va) /\
  (move_construct b a ;;; destroy a ;;; destroy b) s = destroy a s.
Proof.
  intros Hwf Ha Hb. assert (a <> b) as Hne by congruence.
  set (s0 := State (heap s) (<[a := []]> (<[b := va]> (arrays s)))).
  assert (move_construct b a s = Some (Normal tt, s0)) as Hmove
    by by apply move_construct_eq.
  assert (wf s0) as Hwf0 by (by eapply wf_move_construct).
  assert (destroy a s0 =
          Some (Normal tt, State (heap s) (delete a (<[b := va]> (arrays s)))))
    as Hdestroy.
  { rewrite (destroy_eq s0 a [] Hwf0) by apply lookup_insert_eq.
    cbn. by rewrite delete_insert_eq. }
  set (s1 := State (heap s) (delete a (<[b := va]> (arrays s)))) in *.
  assert (arrays s1 !! b = Some va) as Hb1.
  { cbn. rewrite lookup_delete_ne by done. apply lookup_insert_eq. }
  split.
  - exists s1. split_and!; [|done..]. unfold bind. by rewrite Hmove.
  - unfold bind. rewrite Hmove, Hdestroy.
    assert (wf s1) as Hwf1 by (by eapply wf_destroy).
    rewrite (destroy_eq s1 b va Hwf1 Hb1), (destroy_eq s a va Hwf Ha). cbn.
    do 3 f_equal. rewrite delete_delete, delete_insert_eq.
    by rewrite (delete_id (arrays s) b Hb).
Qed.

(** *** Sequences of [emplace] *)

Lemma emplace_all_app {Args} (ctor : Args -> result T) c l1 l2 s :
  emplace_all ctor c (l1 ++ l2) s =
  (emplace_all ctor c l1 ;;; emplace_all ctor c l2) s.
Proof.
  revert s. induction l1 as [|args l1 IH]; intros s; [done |].
  cbn [app emplace_all]. unfold bind.
  destruct (emplace ctor c args s) as [[[[]|e] s1]|]; [| done..].
  rewrite IH. reflexivity.
Qed.

Lemma emplace_all_eq {Args} (ctor : Args -> result T) c : forall l xs s v,
  arrays s !! c = Some v ->
  Forall2 (fun args x => ctor args = Normal x) l xs ->
  exists s' (ps : list positive),
    emplace_all ctor c l s = Some (Normal tt, s') /\
    arrays s' = <[c := v ++ (Some <$> ps)]> (arrays s) /\
    length ps = length l /\
    (forall a y, heap s !! a = Some y -> heap s' !! a = Some y) /\
    (forall j x, xs !! j = Some x ->
       exists a, ps !! j = Some a /\ heap s' !! a = Some x).
Proof.
  intros l xs s v Hc Hall. revert s v Hc.
  induction Hall as [|args x l xs Hctor Hall IH]; intros s v Hc.
  - exists s, []. split_and!; try done.
    cbn. rewrite app_nil_r. symmetry. by apply insert_id.
  - set (a0 := fresh (dom (heap s))).
    set (s1 := State (<[a0 := x]> (heap s))
                     (<[c := v ++ [Some a0]]> (arrays s))).
    assert (emplace ctor c args s = Some (Normal tt, s1)) as Hstep
      by by apply emplace_eq.
    destruct (IH s1 (v ++ [Some a0])) as (s' & ps & Hrun & Harr & Hlen & Hmono & Hnew).
    { apply lookup_insert_eq. }
    exists s', (a0 :: ps). split_and!.
    + cbn [emplace_all]. unfold bind. by rewrite Hstep.
    + rewrite Harr. cbn. rewrite insert_insert_eq.
      by rewrite <- app_assoc.
    + cbn. by rewrite Hlen.
    + intros a y Ha. apply Hmono. by apply (insert_fresh_keeps s).
    + intros [|j] y Hj; cbn in Hj.
      * injection Hj as <-. exists a0. split; [done |].
        apply Hmono. apply lookup_insert_eq.
      * destruct (Hnew j y Hj) as (a & Ha & Hy). by exists a.
Qed.

(** X9. A run of [emplace] calls whose constructors all return appends
    the new objects in order: the size grows by the number of calls, the
    new elements follow the old ones, and everything stored before is
    unchanged. *)
Theorem emplace_all_appends {Args} (ctor : Args -> result T) s c v l xs :
  arrays s !! c = Some v ->
  Forall2 (fun args x => ctor args = Normal x) l xs ->
  exists s',
    emplace_all ctor c l s = Some (Normal tt, s') /\
    size c s' =
      Some (Normal (vector_size v + N.of_nat (length l))%N, s') /\
    (forall j x, xs !! j = Some x -> element s' c (length v + j) = Some x) /\
    (forall i y, element s c i = Some y -> element s' c i = Some y) /\
    (forall c', c' <> c -> arrays s' !! c' = arrays s !! c').
Proof.
  intros Hc Hall.
  destruct (emplace_all_eq ctor c l xs s v Hc Hall)
    as (s' & ps & Hrun & Harr & Hlen & Hmono & Hnew).
  assert (arrays s' !! c = Some (v ++ (Some <$> ps))) as Hc'.
  { rewrite Harr. apply lookup_insert_eq. }
  exists s'. split_and!.
  - exact Hrun.
  - rewrite (size_eq s' c _ Hc'). unfold vector_size.
    rewrite length_app, length_fmap, Hlen. do 3 f_equal. lia.
  - intros j x Hj. destruct (Hnew j x Hj) as (a & Ha & Hx).
    unfold element. rewrite Hc'.
    rewrite lookup_app_r by lia.
    replace (length v + j - length v) with j by lia.
    by rewrite list_lookup_fmap, Ha.
  - intros i y. unfold element. rewrite Hc, Hc'.
    destruct (v !! i) as [[a|]|] eqn:Hi; try done.
    rewrite lookup_app_l by (by eapply lookup_lt_Some). rewrite Hi.
    apply Hmono.
  - intros c' Hne. rewrite Harr. by rewrite lookup_insert_ne.
Qed.

(** X10. A run of [emplace] calls stops at the first constructor that
    throws: the elements before it are in the container, the exception
    goes to the caller, and the later calls are not made. *)
Theorem emplace_all_stops {Args} (ctor : Args -> result T) s c l1 bad l2 e :
  ctor bad = Thrown e ->
  emplace_all ctor c (l1 ++ bad :: l2) s =
  (emplace_all ctor c l1 ;;; throw e) s.
Proof.
  intros Hbad. rewrite emplace_all_app. unfold bind at 1 2.
  destruct (emplace_all ctor c l1 s) as [[[[]|e'] s1]|]; [| done..].
  cbn [emplace_all]. unfold bind, emplace. by rewrite Hbad.
Qed.

(** X11. [add] takes over an object handed to it: when the pointer is to a
    live object that no container holds, the call succeeds, the invariant
    is kept, the object is the last element, and the destructor of the
    container destroys it. *)
Theorem add_adopts s c v a x :
  wf s -> arrays s !! c = Some v -> heap s !! a = Some x ->
  (forall c' v', arrays s !! c' = Some v' -> Some a ∉ v') ->
  exists s',
    add c (Some a) s = Some (Normal tt, s') /\
    wf s' /\
    size c s' = Some (Normal (vector_size v + 1)%N, s') /\
    element s' c (length v) = Some x /\
    exists s'',
      destroy c s' = Some (Normal tt, s'') /\ heap s'' !! a = None.
Proof.
  intros Hwf Hc Ha Hfree.
  set (s' := State (heap s) (<[c := v ++ [Some a]]> (arrays s))).
  assert (add c (Some a) s = Some (Normal tt, s')) as Hrun.
  { unfold add, push_back, bind, pointers, set_pointers.
    rewrite Hc. cbn. by rewrite Hc. }
  assert (wf s') as Hwf'.
  { eapply (wf_add s c a); [exact Hwf | by eexists | exact Hfree | exact Hrun]. }
  assert (arrays s' !! c = Some (v ++ [Some a])) as Hc'
    by apply lookup_insert_eq.
  exists s'. split_and!; [done | done | | |].
  - rewrite (size_eq s' c _ Hc'). unfold vector_size.
    rewrite length_app. cbn. do 3 f_equal. lia.
  - unfold element. rewrite Hc'.
    by rewrite lookup_app_r, Nat.sub_diag by done.
  - eexists. split; [by apply destroy_eq |]. cbn.
    rewrite lookup_release, decide_True; [done |].
    apply elem_of_app. right. by left.
Qed.

(** *** No object is lost *)

Lemma no_leak_from s h' (m' : gmap positive (list (option positive))) :
  no_leak s ->
  (forall q, is_Some (h' !! q) ->
     is_Some (heap s !! q) \/
     (exists c v, m' !! c = Some v /\ Some q ∈ v)) ->
  (forall q c v, is_Some (h' !! q) -> arrays s !! c = Some v -> Some q ∈ v ->
     exists c' v', m' !! c' = Some v' /\ Some q ∈ v') ->
  no_leak (State h' m').
Proof.
  intros Hnl Hlive Hown q Hq.
  destruct (Hlive q Hq) as [Hold|Hnew]; [|done].
  destruct (Hnl q Hold) as (c & v & Hc & Hin). by eapply Hown.
Qed.

Lemma release_live v h q :
  is_Some (release v h !! q) -> (Some q ∉ v) /\ is_Some (h !! q).
Proof.
  rewrite lookup_release. case_decide; [by intros [? ?] | done].
Qed.

Lemma no_leak_init : no_leak (@init T).
Proof. intros a [x Hx]. cbn in Hx. by rewrite lookup_empty in Hx. Qed.

Lemma no_leak_construct s c r s' :
  no_leak s -> construct c s = Some (r, s') -> no_leak s'.
Proof.
  intros Hnl. unfold construct.
  destruct (arrays s !! c) eqn:Hc; [done |]. intros [= <- <-].
  apply (no_leak_from s); [done | by left |].
  intros q c0 v0 _ Hc0 Hin. exists c0, v0. split; [|done].
  rewrite lookup_insert_ne; [done | congruence].
Qed.

Lemma no_leak_emplace {Args} (ctor : Args -> result T) s c args r s' :
  no_leak s -> emplace ctor c args s = Some (r, s') -> no_leak s'.
Proof.
  intros Hnl. destruct (ctor args) as [x|e] eqn:Hctor.
  2: { unfold emplace. rewrite Hctor. by intros [= <- <-]. }
  destruct (arrays s !! c) as [v|] eqn:Hc.
  2: { unfold emplace, push_back, bind, new_, pointers. rewrite Hctor. cbn.
       by rewrite Hc. }
  rewrite (emplace_eq ctor s c v args x Hc Hctor). intros [= <- <-].
  apply (no_leak_from s); [done | |].
  - intros q Hq. destruct (decide (q = fresh (dom (heap s)))) as [->|Hne].
    + right. exists c, (v ++ [Some (fresh (dom (heap s)))]).
      split; [apply lookup_insert_eq |]. apply elem_of_app. right. by left.
    + left. by rewrite lookup_insert_ne in Hq.
  - intros q c0 v0 _ Hc0 Hin. destruct (decide (c0 = c)) as [->|Hne].
    + exists c, (v ++ [Some (fresh (dom (heap s)))]).
      split; [apply lookup_insert_eq |]. apply elem_of_app. left. congruence.
    + exists c0, v0. by rewrite lookup_insert_ne.
Qed.

Lemma no_leak_clear s c r s' :
  wf s -> no_leak s -> clear c s = Some (r, s') -> no_leak s'.
Proof.
  intros Hwf Hnl Hrun. destruct (arrays s !! c) as [v|] eqn:Hc.
  2: { unfold clear, bind, pointers in Hrun. by rewrite Hc in Hrun. }
  rewrite (clear_eq s c v Hwf Hc) in Hrun. injection Hrun as <- <-.
  apply (no_leak_from s); [done | |].
  - intros q [_ Hq]%release_live. by left.
  - intros q c0 v0 [Hq _]%release_live Hc0 Hin. exists c0, v0.
    rewrite lookup_insert_ne; [done | congruence].
Qed.

Lemma no_leak_destroy s c r s' :
  wf s -> no_leak s -> destroy c s = Some (r, s') -> no_leak s'.
Proof.
  intros Hwf Hnl Hrun. destruct (arrays s !! c) as [v|] eqn:Hc.
  2: { unfold destroy, bind, clear, bind, pointers in Hrun.
       by rewrite Hc in Hrun. }
  rewrite (destroy_eq s c v Hwf Hc) in Hrun. injection Hrun as <- <-.
  apply (no_leak_from s); [done | |].
  - intros q [_ Hq]%release_live. by left.
  - intros q c0 v0 [Hq _]%release_live Hc0 Hin. exists c0, v0.
    rewrite lookup_delete_ne; [done | congruence].
Qed.

Lemma no_leak_moved s a b va h' :
  no_leak s -> a <> b -> arrays s !! a = Some va ->
  (forall q, is_Some (h' !! q) -> is_Some (heap s !! q)) ->
  (forall q vb, is_Some (h' !! q) -> arrays s !! b = Some vb -> Some q ∉ vb) ->
  no_leak (State h' (<[a := []]> (<[b := va]> (arrays s)))).
Proof.
  intros Hnl Hne Ha Hsub Hb. apply (no_leak_from s); [done | by left; auto |].
  intros q c0 v0 Hq Hc0 Hin.
  destruct (decide (c0 = a)) as [->|Hc0a].
  { exists b, va. rewrite lookup_insert_ne, lookup_insert_eq by done.
    split; [done | congruence]. }
  destruct (decide (c0 = b)) as [->|Hc0b].
  { by destruct (Hb q v0 Hq Hc0). }
  exists c0, v0. by rewrite !lookup_insert_ne by done.
Qed.

Lemma no_leak_move_construct s a b r s' :
  no_leak s -> move_construct b a s = Some (r, s') -> no_leak s'.
Proof.
  intros Hnl Hrun.
  destruct (arrays s !! a) as [va|] eqn:Ha.
  2: { unfold move_construct, bind, pointers in Hrun. by rewrite Ha in Hrun. }
  destruct (arrays s !! b) as [vb|] eqn:Hb.
  { unfold move_construct, bind, pointers, construct in Hrun.
    rewrite Ha in Hrun. cbn in Hrun. by rewrite Hb in Hrun. }
  rewrite (move_construct_eq s a b va Ha Hb) in Hrun. injection Hrun as <- <-.
  apply no_leak_moved; [done | congruence | done | done |].
  intros q vb _ Hvb. congruence.
Qed.

Lemma no_leak_move_assign s a b r s' :
  wf s -> no_leak s -> move_assign b a s = Some (r, s') -> no_leak s'.
Proof.
  intros Hwf Hnl Hrun. destruct (decide (a = b)) as [->|Hne].
  { unfold move_assign in Hrun. rewrite decide_False in Hrun by auto.
    by injection Hrun as <- <-. }
  destruct (arrays s !! b) as [vb|] eqn:Hb.
  2: { unfold move_assign in Hrun. rewrite decide_True in Hrun by done.
       unfold clear, bind, pointers in Hrun. by rewrite Hb in Hrun. }
  destruct (arrays s !! a) as [va|] eqn:Ha.
  2: { unfold move_assign in Hrun. rewrite decide_True in Hrun by done.
       unfold bind at 1 in Hrun. rewrite (clear_eq s b vb Hwf Hb) in Hrun.
       unfold bind, pointers in Hrun. cbn in Hrun.
       by rewrite lookup_insert_ne, Ha in Hrun. }
  rewrite (move_assign_eq s a b va vb Hwf Hne Ha Hb) in Hrun.
  injection Hrun as <- <-.
  apply no_leak_moved; [done | done | done | |].
  - by intros q [_ Hq]%release_live.
  - intros q vb' [Hq _]%release_live Hvb'. congruence.
Qed.

Lemma drop_result_state {A} (m : M T A) s r s' :
  (forall r0 s0, m s = Some (r0, s0) -> s0 = s) ->
  (m ;;; ret tt) s = Some (r, s') -> s' = s.
Proof.
  intros Hm. unfold bind.
  destruct (m s) as [[[x|e] s0]|] eqn:Hrun; [| |done].
  - intros [= _ <-]. by eapply Hm.
  - intros [= _ <-]. by eapply Hm.
Qed.

Lemma exec_keeps {Args} (ctor : Args -> result T) k s r s' :
  wf s /\ no_leak s -> exec ctor k s = Some (r, s') -> wf s' /\ no_leak s'.
Proof.
  intros [Hwf Hnl] Hrun.
  destruct k; cbn [exec] in Hrun.
  - split; [by eapply wf_construct | by eapply no_leak_construct].
  - split; [by eapply wf_construct | by eapply no_leak_construct].
  - split; [by eapply wf_destroy | by eapply no_leak_destroy].
  - split; [by eapply wf_move_construct | by eapply no_leak_move_construct].
  - split; [by eapply wf_move_assign | by eapply no_leak_move_assign].
  - split; [by eapply wf_emplace | by eapply no_leak_emplace].
  - split; [by eapply wf_clear | by eapply no_leak_clear].
  - assert (s' = s) as ->; [|done].
    eapply drop_result_state; [|exact Hrun]. intros r0 s0.
    destruct (const_members_keep_state s s0 this 0) as (H0 & _); apply H0.
  - assert (s' = s) as ->; [|done].
    eapply drop_result_state; [|exact Hrun]. intros r0 s0.
    destruct (const_members_keep_state s s0 this 0) as (_ & H0 & _); apply H0.
  - assert (s' = s) as ->; [|done].
    eapply drop_result_state; [|exact Hrun]. intros r0 s0.
    destruct (const_members_keep_state s s0 this index)
      as (_ & _ & _ & _ & H0); apply H0.
  - assert (s' = s) as ->; [|done].
    eapply drop_result_state; [|exact Hrun]. intros r0 s0.
    destruct (const_members_keep_state s s0 this index)
      as (_ & _ & _ & H0 & _); apply H0.
  - assert (s' = s) as ->; [|done].
    eapply drop_result_state; [|exact Hrun]. intros r0 s0.
    destruct (const_members_keep_state s s0 this index)
      as (_ & _ & H0 & _); apply H0.
Qed.

Lemma run_keeps {Args} (ctor : Args -> result T) ks : forall s r s',
  wf s /\ no_leak s -> run ctor ks s = Some (r, s') -> wf s' /\ no_leak s'.
Proof.
  induction ks as [|k ks IH]; intros s r s' Hinv.
  - by intros [= _ <-].
  - cbn [run]. unfold bind.
    destruct (exec ctor k s) as [[[[]|e] s1]|] eqn:Hstep; [| |done].
    + apply IH. by eapply exec_keeps.
    + intros [= _ <-]. by eapply exec_keeps.
Qed.


End More.

(** ** Objects reached through a container *)

Lemma wf_heap_insert {T} (s : state T) r (x : T) :
  wf s -> wf (State (<[r := x]> (heap s)) (arrays s)).
Proof.
  intros [Hn Hl Hu]. split; [done | | done].
  intros c v a Hc Hin. cbn.
  destruct (decide (r = a)) as [->|Hne].
  - rewrite lookup_insert_eq. by eexists.
  - rewrite lookup_insert_ne by done. by eapply Hl.
Qed.

(** X13. [array[index].setValue(v)] at a valid index: a negative [v] is
    rejected with [std::invalid_argument] and nothing changes; otherwise
    [array[index].getValue()] then returns [v], the name of that element
    and every other element are as before, and the invariant is kept. *)
Theorem setValue_at_then_getValue_at s c v (index : N) (newValue : Z) :
  wf s -> arrays s !! c = Some v -> (index < vector_size v)%N ->
  ((newValue < 0)%Z ->
     setValue_at c index newValue s =
       Some (Thrown (invalid_argument "Значение не может быть отрицательным"),
             s)) /\
  ((0 <= newValue)%Z ->
     exists s',
       setValue_at c index newValue s = Some (Normal tt, s') /\
       getValue_at c index s' = Some (Normal newValue, s') /\
       arrays s' = arrays s /\
       wf s' /\
       getName <$> element s' c (N.to_nat index) =
         getName <$> element s c (N.to_nat index) /\
       (forall c' j, (c', j) <> (c, N.to_nat index) ->
          element s' c' j = element s c' j)).
Proof.
  intros Hwf Hc Hlt.
  destruct (subscript_in s c v index Hwf Hc Hlt) as (r & x & Hsub & Hr & Hx & Hel).
  split.
  - intros Hneg. unfold setValue_at, bind. rewrite Hsub.
    unfold invoke, setValue. rewrite Hx.
    by rewrite (proj2 (Z.ltb_lt _ _)) by done.
  - intros Hpos.
    set (x' := {| name := name x; value := newValue |}).
    set (s' := State (<[r := x']> (heap s)) (arrays s)).
    assert (wf s') as Hwf' by by apply wf_heap_insert.
    assert (setValue_at c index newValue s = Some (Normal tt, s')) as Hset.
    { unfold setValue_at, bind. rewrite Hsub. unfold invoke, setValue.
      rewrite Hx. by rewrite (proj2 (Z.ltb_ge _ _)) by done. }
    assert (element s' c (N.to_nat index) = Some x') as Hel'.
    { unfold element. cbn. rewrite Hc, Hr. apply lookup_insert_eq. }
    exists s'. split_and!; try done.
    + destruct (subscript_in s' c v index Hwf' Hc Hlt)
        as (r' & y & Hsub' & Hr' & Hy & _).
      assert (r' = r) as -> by congruence.
      unfold getValue_at, bind, subscript_const. fold (subscript c index s').
      rewrite Hsub'. unfold invoke_const. rewrite Hy.
      cbn in Hy. rewrite lookup_insert_eq in Hy. by injection Hy as <-.
    + by rewrite Hel, Hel'.
    + intros c' j Hne. unfold element. cbn.
      destruct (arrays s !! c') as [v'|] eqn:Hc'; [|done].
      destruct (v' !! j) as [[q|]|] eqn:Hj; try done.
      rewrite lookup_insert_ne; [done |]. intros <-.
      destruct (wf_unique s Hwf c c' v v' (N.to_nat index) j (Some r))
        as [<- <-]; done.
Qed.

(** ** [processValue] *)

Lemma to_string_int_free_of_space value :
  free_of " "%char (to_string_int value).
Proof.
  destruct value as [|q|q].
  - by split.
  - apply (to_string_free_of_space (Npos q)).
  - split; [done |]. apply (to_string_free_of_space (Npos q)).
Qed.

Lemma processValue_message_inj value value' :
  processValue_message value = processValue_message value' -> value = value'.
Proof.
  unfold processValue_message. intros Heq.
  pose proof (to_string_int_free_of_space value) as Hv.
  pose proof (to_string_int_free_of_space value') as Hv'.
  apply (inj (pretty : Z -> string)). fold (to_string_int value).
  fold (to_string_int value'). revert Heq Hv Hv'.
  generalize (to_string_int value), (to_string_int value').
  intros d d' Heq Hd Hd'. cbn in Heq. simplify_eq.
  match goal with
  | H : _ +:+ _ = _ +:+ _ |- _ =>
      by apply split_at_space in H as [-> _]
  end.
Qed.

(** X14. [processValue] accepts exactly the values from 0 to 100; any other
    value is rejected with [std::invalid_argument], which no handler for
    [ProgramError] catches, and the message names the value. *)
Theorem processValue_range value :
  ((0 <= value <= 100)%Z -> processValue value = Normal tt) /\
  (~ (0 <= value <= 100)%Z ->
     exists e,
       processValue value = Thrown e /\
       Exn.dyn e = Exn.std_invalid_argument /\
       Exn.catches Exn.std_invalid_argument e = true /\
       Exn.catches Exn.ProgramError e = false /\
       Exn.what e =
         "Значение " +:+ to_string_int value +:+
         " должно быть в диапазоне [0, 100]" /\
       (forall value', processValue_message value' = Exn.what e ->
          value' = value)).
Proof.
  unfold processValue. rewrite Z.gtb_ltb. split.
  - intros [Hlo Hhi].
    rewrite (proj2 (Z.ltb_ge _ _)), (proj2 (Z.ltb_ge _ _)) by done. done.
  - intros Hout.
    assert (((value <? 0) || (100 <? value))%Z = true) as ->.
    { apply orb_true_iff. rewrite !Z.ltb_lt. lia. }
    eexists. split_and!; try done.
    intros value' Heq. by apply processValue_message_inj.
Qed.

(** ** The class hierarchy *)

(** X15. A handler for class [b] catches an exception of class [d] exactly
    when [b] is reached from [d] along the declared base classes; a handler
    for [std::exception], the last one in [main], catches every class. *)
Theorem catches_along_bases :
  (forall d b,
     Exn.is_a d b = true <-> rtc (fun x y => Exn.base x = Some y) d b) /\
  (forall e, Exn.catches Exn.std_exception e = true).
Proof.
  split.
  - intros d b. split.
    + destruct d, b; intros H; try discriminate H;
        repeat first [ apply rtc_refl | eapply rtc_l; [reflexivity |] ].
    + induction 1 as [x | x y z Hbase _ IH]; [by destruct x |].
      destruct x; simplify_eq/=; by destruct z.
  - intros [c msg]. by destruct c.
Qed.

(** ** The further properties at the states of [main] *)

Lemma testArray_contents :
  arrays after_main_testArray !! testArray =
    Some [Some 1%positive; Some 2%positive; Some 3%positive].
Proof. vm_compute. reflexivity. Qed.

Lemma other_not_constructed : arrays after_main_testArray !! other = None.
Proof. vm_compute. reflexivity. Qed.

Lemma destroy_frees_all_witness :
  wf after_main_testArray /\
  arrays after_main_testArray !! testArray =
    Some [Some 1%positive; Some 2%positive; Some 3%positive] /\
  exists s',
    destroy testArray after_main_testArray = Some (Normal tt, s') /\
    arrays s' !! testArray = None /\
    heap s' !! 2%positive = None.
Proof.
  split_and!; [exact wf_after_main_testArray | exact testArray_contents |].
  destruct (destroy_frees_all after_main_testArray testArray _
              wf_after_main_testArray testArray_contents)
    as (s' & Hrun & Hgone & Hfreed & _).
  exists s'. split_and!; [exact Hrun | exact Hgone |].
  apply Hfreed. right. left.
Defined.

Lemma empty_iff_size_zero_witness :
  arrays after_main_testArray !! testArray =
    Some [Some 1%positive; Some 2%positive; Some 3%positive] /\
  exists b n,
    empty testArray after_main_testArray =
      Some (Normal b, after_main_testArray) /\
    size testArray after_main_testArray =
      Some (Normal n, after_main_testArray) /\
    (b = true <-> n = 0%N).
Proof.
  split; [exact testArray_contents |].
  exact (empty_iff_size_zero after_main_testArray testArray _
           testArray_contents).
Defined.

Lemma get_agrees_with_subscript_witness :
  wf after_main_testArray /\
  arrays after_main_testArray !! testArray =
    Some [Some 1%positive; Some 2%positive; Some 3%positive] /\
  (get testArray 2 after_main_testArray =
     Some (Normal (Some 3%positive), after_main_testArray) <->
   subscript testArray 2 after_main_testArray =
     Some (Normal 3%positive, after_main_testArray)).
Proof.
  split_and!; [exact wf_after_main_testArray | exact testArray_contents |].
  destruct (get_agrees_with_subscript after_main_testArray testArray _ 2
              wf_after_main_testArray testArray_contents) as [Hsome _].
  exact (Hsome 3%positive).
Defined.


Lemma move_round_trip_witness :
  arrays after_main_testArray !! testArray =
    Some [Some 1%positive; Some 2%positive; Some 3%positive] /\
  arrays after_main_testArray !! other = None /\
  (move_construct other testArray ;;; move_assign testArray other)
    after_main_testArray =
  Some (Normal tt,
        State (heap after_main_testArray)
              (<[other := []]> (arrays after_main_testArray))).
Proof.
  split_and!; [exact testArray_contents | exact other_not_constructed |].
  exact (move_round_trip after_main_testArray testArray other _
           testArray_contents other_not_constructed).
Defined.

Lemma destroy_after_move_witness :
  wf after_main_testArray /\
  arrays after_main_testArray !! testArray =
    Some [Some 1%positive; Some 2%positive; Some 3%positive] /\
  arrays after_main_testArray !! other = None /\
  (move_construct other testArray ;;; destroy testArray ;;; destroy other)
    after_main_testArray =
  destroy testArray after_main_testArray.
Proof.
  split_and!; [exact wf_after_main_testArray | exact testArray_contents
              | exact other_not_constructed |].
  exact (proj2 (destroy_after_move after_main_testArray testArray other _
                  wf_after_main_testArray testArray_contents
                  other_not_constructed)).
Defined.

Lemma emplace_all_appends_witness :
  arrays after_main_testArray !! testArray =
    Some [Some 1%positive; Some 2%positive; Some 3%positive] /\
  exists s',
    emplace_all TestClass_ctor testArray
      [("Объект 4", 40%Z); ("Объект 5", 50%Z)] after_main_testArray =
      Some (Normal tt, s') /\
    size testArray s' = Some (Normal 5%N, s') /\
    element s' testArray 4 = Some {| name := "Объект 5"; value := 50 |}.
Proof.
  split; [exact testArray_contents |].
  destruct (emplace_all_appends TestClass_ctor after_main_testArray testArray _
              [("Объект 4", 40%Z); ("Объект 5", 50%Z)]
              [{| name := "Объект 4"; value := 40 |};
               {| name := "Объект 5"; value := 50 |}]
              testArray_contents)
    as (s' & Hrun & Hsize & Hnew & _).
  { repeat constructor. }
  exists s'. split_and!; [exact Hrun | exact Hsize |].
  exact (Hnew 1 _ eq_refl).
Defined.

Lemma emplace_all_stops_witness :
  Validated_ctor ("Объект 5", (-5)%Z) =
    Thrown (invalid_argument "Значение не может быть отрицательным") /\
  emplace_all Validated_ctor testArray
    ([("Объект 4", 40%Z)] ++ ("Объект 5", (-5)%Z) :: [("Объект 6", 60%Z)])
    after_main_testArray =
  (emplace_all Validated_ctor testArray [("Объект 4", 40%Z)] ;;;
   throw (invalid_argument "Значение не может быть отрицательным"))
    after_main_testArray.
Proof.
  split; [reflexivity |].
  exact (emplace_all_stops Validated_ctor after_main_testArray testArray
           [("Объект 4", 40%Z)] ("Объект 5", (-5)%Z) [("Объект 6", 60%Z)]
           _ eq_refl).
Defined.

Lemma wf_with_new_object : wf with_new_object.
Proof. apply wf_heap_insert. exact wf_after_main_testArray. Qed.

Lemma new_object_not_owned c' v' :
  arrays with_new_object !! c' = Some v' -> Some 4%positive ∉ v'.
Proof.
  unfold with_new_object, after_main_testArray. cbn.
  destruct (decide (c' = testArray)) as [->|Hne].
  - rewrite lookup_insert_eq. intros [= <-] Hin.
    repeat (apply elem_of_cons in Hin as [[=]|Hin]). by apply elem_of_nil in Hin.
  - by rewrite lookup_insert_ne, lookup_empty.
Qed.

Lemma add_adopts_witness :
  wf with_new_object /\
  arrays with_new_object !! testArray =
    Some [Some 1%positive; Some 2%positive; Some 3%positive] /\
  heap with_new_object !! 4%positive =
    Some {| name := "Объект 4"; value := 40 |} /\
  exists s',
    add testArray (Some 4%positive) with_new_object = Some (Normal tt, s') /\
    wf s' /\
    element s' testArray 3 = Some {| name := "Объект 4"; value := 40 |}.
Proof.
  assert (arrays with_new_object !! testArray =
    Some [Some 1%positive; Some 2%positive; Some 3%positive]) as Hc
    by (vm_compute; reflexivity).
  assert (heap with_new_object !! 4%positive =
    Some {| name := "Объект 4"; value := 40 |}) as Hx
    by (vm_compute; reflexivity).
  split_and!; [exact wf_with_new_object | exact Hc | exact Hx |].
  destruct (add_adopts with_new_object testArray _ 4%positive _
              wf_with_new_object Hc Hx new_object_not_owned)
    as (s' & Hrun & Hwf & _ & Hel & _).
  exists s'. split_and!; [exact Hrun | exact Hwf | exact Hel].
Defined.


Lemma setValue_at_then_getValue_at_witness :
  wf after_main_testArray /\
  arrays after_main_testArray !! testArray =
    Some [Some 1%positive; Some 2%positive; Some 3%positive] /\
  setValue_at testArray 0 (-5) after_main_testArray =
    Some (Thrown (invalid_argument "Значение не может быть отрицательным"),
          after_main_testArray) /\
  exists s',
    setValue_at testArray 0 5 after_main_testArray = Some (Normal tt, s') /\
    getValue_at testArray 0 s' = Some (Normal 5%Z, s').
Proof.
  split_and!; [exact wf_after_main_testArray | exact testArray_contents | |].
  - apply (setValue_at_then_getValue_at after_main_testArray testArray _ 0 (-5)
             wf_after_main_testArray testArray_contents);
      [vm_compute; reflexivity | reflexivity].
  - destruct (setValue_at_then_getValue_at after_main_testArray testArray _ 0 5
                wf_after_main_testArray testArray_contents) as [_ Hok].
    { vm_compute. reflexivity. }
    destruct Hok as (s' & Hset & Hget & _); [discriminate |].
    exists s'. split; [exact Hset | exact Hget].
Defined.
